(** * Virtual Event Management Platform: record stores and admission control

    A shallow embedding of the JavaScript model layer ([models/User.js],
    [models/Event.js]) and of the [authenticateToken] middleware, with the
    properties of the stores stated and proved over it.

    Conventions of the embedding:
    - a JS method that mutates [this] and may [throw] is a computation in the
      monad [M S A := S -> S * completion A]: it returns the state reached
      when it returned or threw, so "the failed call changed nothing" is a
      statement about the code, not about the encoding;
    - the stores keep their records in a JS array; [find]/[findIndex] return
      the first match, and a method called on the found record mutates the
      array slot in place ([at_index]);
    - [uuidv4()], [new Date()] and [bcrypt.hash] are inputs of the operation
      that calls them;
    - the snapshot file is part of the store state ([dataFile]), holding
      what [JSON.stringify] wrote. *)

From Stdlib Require Import ZArith Lia Ascii String.
From stdpp Require Import base tactics option list strings sorting.
Open Scope string_scope.
Open Scope list_scope.

(** ** JavaScript values used by the models *)

Module JS.

(** [String.prototype.toLowerCase], on the ASCII range. *)
Definition lower_ascii (c : ascii) : ascii :=
  let n := N_of_ascii c in
  if ((65 <=? n) && (n <=? 90))%N then ascii_of_N (n + 32) else c.

Fixpoint toLowerCase (s : string) : string :=
  match s with
  | EmptyString => EmptyString
  | String c s' => String (lower_ascii c) (toLowerCase s')
  end.

(** Truthiness of a number-or-null and of a string. *)
Definition truthy_num (v : option Z) : bool :=
  match v with
  | Some n => negb (n =? 0)%Z
  | None => false
  end.

Definition truthy_str (s : string) : bool :=
  negb (bool_decide (s = EmptyString)).

(** [v || d] for an optional number, string and nullable string. *)
Definition num_or (v : option Z) (d : Z) : Z :=
  match v with
  | Some n => if (n =? 0)%Z then d else n
  | None => d
  end.

Definition num_or_null (v : option Z) : option Z :=
  if truthy_num v then v else None.

Definition str_or (v : option string) (d : string) : string :=
  match v with
  | Some s => if truthy_str s then s else d
  | None => d
  end.

Definition str_or_null (v : option string) : option string :=
  match v with
  | Some s => if truthy_str s then Some s else None
  | None => None
  end.

(** A point in time as the code holds it: a [Date] object, or the ISO-8601
    text that [JSON.stringify] writes for one (millisecond precision, so the
    text determines the instant). *)
Inductive jstime : Type :=
| DateObj (ms : Z)
| IsoString (ms : Z).

Definition instant (t : jstime) : Z :=
  match t with
  | DateObj ms => ms
  | IsoString ms => ms
  end.

(** [new Date(t)] and what [JSON.stringify] makes of [t]. *)
Definition new_Date (t : jstime) : jstime := DateObj (instant t).
Definition stringify_time (t : jstime) : jstime := IsoString (instant t).

Definition is_Date (t : jstime) : bool :=
  match t with
  | DateObj _ => true
  | IsoString _ => false
  end.

(** [s.split(sep)] for a one-character separator. *)
Fixpoint split (sep : ascii) (s : string) : list string :=
  match s with
  | EmptyString => [EmptyString]
  | String c s' =>
      if bool_decide (c = sep) then EmptyString :: split sep s'
      else match split sep s' with
           | x :: xs => String c x :: xs
           | [] => [String c EmptyString]
           end
  end.

End JS.

(** ** Errors thrown by the models and the monad of mutating methods *)

Inductive entity : Type := AnEvent | AUser.
Inductive action : Type := Updating | Deleting.

Inductive Error : Type :=
| EventFull
| AlreadyRegistered
| NotRegistered
| NotFound (what : entity)
| Unauthorized (act : action)
| DuplicateKey.

(** The text of the [Error] object the code throws. *)
Definition message (e : Error) : string :=
  match e with
  | EventFull => "Event is full"
  | AlreadyRegistered => "User is already registered for this event"
  | NotRegistered => "User is not registered for this event"
  | NotFound AnEvent => "Event not found"
  | NotFound AUser => "User not found"
  | Unauthorized Updating =>
      "Unauthorized: Only the event organizer can update this event"
  | Unauthorized Deleting =>
      "Unauthorized: Only the event organizer can delete this event"
  | DuplicateKey => "Email already exists"
  end.

Inductive completion (A : Type) : Type :=
| Return (a : A)
| Throw (e : Error).
Arguments Return {A} a.
Arguments Throw {A} e.

Definition M (S A : Type) : Type := S -> S * completion A.

Definition ret {S A} (a : A) : M S A := fun s => (s, Return a).
Definition throw {S A} (e : Error) : M S A := fun s => (s, Throw e).
Definition get {S} : M S S := fun s => (s, Return s).
Definition modify {S} (f : S -> S) : M S unit := fun s => (f s, Return tt).

Definition bind {S A B} (m : M S A) (k : A -> M S B) : M S B :=
  fun s =>
    match m s with
    | (s', Return a) => k a s'
    | (s', Throw e) => (s', Throw e)
    end.

#[global] Instance M_ret {S} : MRet (M S) := fun A a => ret a.
#[global] Instance M_bind {S} : MBind (M S) := fun A B k m => bind m k.

(** [if (c) throw new Error(e)]. *)
Definition throw_if {S} (c : bool) (e : Error) : M S unit :=
  if c then throw e else ret tt.

(** A method of the record held in slot [i] of an array: the slot is
    mutated in place, also when the method throws half-way. *)
Definition at_index {S X A} (getl : S -> list X) (setl : list X -> S -> S)
    (i : nat) (m : M X A) : M S (option A) :=
  fun s =>
    match getl s !! i with
    | None => (s, Return None)
    | Some x =>
        match m x with
        | (x', Return a) => (setl (<[i := x']> (getl s)) s, Return (Some a))
        | (x', Throw e) => (setl (<[i := x']> (getl s)) s, Throw e)
        end
    end.

(** ** models/Event.js: class Event *)

Module Event.

(** The properties of an [Event] object. [derived] holds the two own
    properties [participantCount] and [availableSpots] that
    [Object.assign] copies from a snapshot record on reload; a constructed
    event has none (they are methods' results, not fields). *)
Record t : Type := mk {
  id : string;
  title : string;
  description : string;
  date : Z;
  time : string;
  duration : Z;
  maxParticipants : option Z;
  organizerId : string;
  participants : list string;
  status : string;
  category : string;
  isPublic : bool;
  meetingLink : option string;
  createdAt : Z;
  updatedAt : Z;
  derived : option (Z * option Z)
}.

(** The [eventData] argument of the constructor; [None] is an absent
    ([undefined]) or [null] property. *)
Record data : Type := mk_data {
  d_title : string;
  d_description : string;
  d_date : JS.jstime;
  d_time : string;
  d_duration : option Z;
  d_maxParticipants : option Z;
  d_status : option string;
  d_category : option string;
  d_isPublic : option bool;
  d_meetingLink : option string
}.

(** The [updateData] argument of [update]: [None] is [undefined] (field
    left alone); [maxParticipants] and [meetingLink] may be set to [null]. *)
Record patch : Type := mk_patch {
  p_title : option string;
  p_description : option string;
  p_date : option JS.jstime;
  p_time : option string;
  p_duration : option Z;
  p_maxParticipants : option (option Z);
  p_status : option string;
  p_category : option string;
  p_isPublic : option bool;
  p_meetingLink : option (option string)
}.

Definition no_patch : patch :=
  mk_patch None None None None None None None None None None.

(** Assignments [this.f = v]. *)
Definition set_title (v : string) (e : t) : t :=
  mk (id e) v (description e) (date e) (time e) (duration e)
     (maxParticipants e) (organizerId e) (participants e) (status e)
     (category e) (isPublic e) (meetingLink e) (createdAt e) (updatedAt e)
     (derived e).
Definition set_description (v : string) (e : t) : t :=
  mk (id e) (title e) v (date e) (time e) (duration e)
     (maxParticipants e) (organizerId e) (participants e) (status e)
     (category e) (isPublic e) (meetingLink e) (createdAt e) (updatedAt e)
     (derived e).
Definition set_date (v : Z) (e : t) : t :=
  mk (id e) (title e) (description e) v (time e) (duration e)
     (maxParticipants e) (organizerId e) (participants e) (status e)
     (category e) (isPublic e) (meetingLink e) (createdAt e) (updatedAt e)
     (derived e).
Definition set_time (v : string) (e : t) : t :=
  mk (id e) (title e) (description e) (date e) v (duration e)
     (maxParticipants e) (organizerId e) (participants e) (status e)
     (category e) (isPublic e) (meetingLink e) (createdAt e) (updatedAt e)
     (derived e).
Definition set_duration (v : Z) (e : t) : t :=
  mk (id e) (title e) (description e) (date e) (time e) v
     (maxParticipants e) (organizerId e) (participants e) (status e)
     (category e) (isPublic e) (meetingLink e) (createdAt e) (updatedAt e)
     (derived e).
Definition set_maxParticipants (v : option Z) (e : t) : t :=
  mk (id e) (title e) (description e) (date e) (time e) (duration e)
     v (organizerId e) (participants e) (status e)
     (category e) (isPublic e) (meetingLink e) (createdAt e) (updatedAt e)
     (derived e).
Definition set_participants (v : list string) (e : t) : t :=
  mk (id e) (title e) (description e) (date e) (time e) (duration e)
     (maxParticipants e) (organizerId e) v (status e)
     (category e) (isPublic e) (meetingLink e) (createdAt e) (updatedAt e)
     (derived e).
Definition set_status (v : string) (e : t) : t :=
  mk (id e) (title e) (description e) (date e) (time e) (duration e)
     (maxParticipants e) (organizerId e) (participants e) v
     (category e) (isPublic e) (meetingLink e) (createdAt e) (updatedAt e)
     (derived e).
Definition set_category (v : string) (e : t) : t :=
  mk (id e) (title e) (description e) (date e) (time e) (duration e)
     (maxParticipants e) (organizerId e) (participants e) (status e)
     v (isPublic e) (meetingLink e) (createdAt e) (updatedAt e)
     (derived e).
Definition set_isPublic (v : bool) (e : t) : t :=
  mk (id e) (title e) (description e) (date e) (time e) (duration e)
     (maxParticipants e) (organizerId e) (participants e) (status e)
     (category e) v (meetingLink e) (createdAt e) (updatedAt e)
     (derived e).
Definition set_meetingLink (v : option string) (e : t) : t :=
  mk (id e) (title e) (description e) (date e) (time e) (duration e)
     (maxParticipants e) (organizerId e) (participants e) (status e)
     (category e) (isPublic e) v (createdAt e) (updatedAt e)
     (derived e).
Definition set_updatedAt (v : Z) (e : t) : t :=
  mk (id e) (title e) (description e) (date e) (time e) (duration e)
     (maxParticipants e) (organizerId e) (participants e) (status e)
     (category e) (isPublic e) (meetingLink e) (createdAt e) v
     (derived e).

(** [new Event(eventData, organizerId)], with [uuid] the result of
    [uuidv4()] and [now] the clock read by [new Date()]. *)
Definition new (uuid : string) (now : Z) (eventData : data)
    (organizer : string) : t :=
  {| id := uuid;
     title := d_title eventData;
     description := d_description eventData;
     date := JS.instant (d_date eventData);
     time := d_time eventData;
     duration := JS.num_or (d_duration eventData) 60;
     maxParticipants := JS.num_or_null (d_maxParticipants eventData);
     organizerId := organizer;
     participants := [];
     status := JS.str_or (d_status eventData) "scheduled";
     category := JS.str_or (d_category eventData) "general";
     isPublic := default true (d_isPublic eventData);
     meetingLink := JS.str_or_null (d_meetingLink eventData);
     createdAt := now;
     updatedAt := now;
     derived := None |}.

(** [this.maxParticipants && this.participants.length >= this.maxParticipants] *)
Definition at_capacity (e : t) : bool :=
  JS.truthy_num (maxParticipants e)
  && match maxParticipants e with
     | Some n => (n <=? Z.of_nat (length (participants e)))%Z
     | None => false
     end.

Definition addParticipant (now : Z) (userId : string) : M t bool :=
  this ← get;
  throw_if (at_capacity this) EventFull;;
  this ← get;
  throw_if (bool_decide (userId ∈ participants this)) AlreadyRegistered;;
  modify (fun this => set_participants (participants this ++ [userId]) this);;
  modify (set_updatedAt now);;
  mret true.

(** [this.participants.indexOf(userId)]; [None] is [-1]. *)
Definition indexOf (userId : string) (l : list string) : option nat :=
  fst <$> list_find (fun x => x = userId) l.

Definition removeParticipant (now : Z) (userId : string) : M t bool :=
  this ← get;
  match indexOf userId (participants this) with
  | None => throw NotRegistered
  | Some index =>
      modify (fun this => set_participants (delete index (participants this)) this);;
      modify (set_updatedAt now);;
      mret true
  end.

Definition isUserRegistered (userId : string) (e : t) : bool :=
  bool_decide (userId ∈ participants e).

Definition getParticipantCount (e : t) : Z :=
  Z.of_nat (length (participants e)).

(** [None] is the [null] returned for an unlimited event. *)
Definition getAvailableSpots (e : t) : option Z :=
  if negb (JS.truthy_num (maxParticipants e)) then None
  else match maxParticipants e with
       | Some n => Some (n - Z.of_nat (length (participants e)))%Z
       | None => None
       end.

Inductive field : Type :=
| Ftitle | Fdescription | Fdate | Ftime | Fduration | FmaxParticipants
| Fstatus | Fcategory | FisPublic | FmeetingLink.

Definition allowedUpdates : list field :=
  [Ftitle; Fdescription; Fdate; Ftime; Fduration; FmaxParticipants;
   Fstatus; Fcategory; FisPublic; FmeetingLink].

(** One turn of the [forEach]: [if (updateData[field] !== undefined) ...]. *)
Definition assign (updateData : patch) (f : field) (e : t) : t :=
  match f with
  | Ftitle => from_option (fun v => set_title v e) e (p_title updateData)
  | Fdescription =>
      from_option (fun v => set_description v e) e (p_description updateData)
  | Fdate =>
      from_option (fun v => set_date (JS.instant v) e) e (p_date updateData)
  | Ftime => from_option (fun v => set_time v e) e (p_time updateData)
  | Fduration =>
      from_option (fun v => set_duration v e) e (p_duration updateData)
  | FmaxParticipants =>
      from_option (fun v => set_maxParticipants v e) e
        (p_maxParticipants updateData)
  | Fstatus => from_option (fun v => set_status v e) e (p_status updateData)
  | Fcategory =>
      from_option (fun v => set_category v e) e (p_category updateData)
  | FisPublic =>
      from_option (fun v => set_isPublic v e) e (p_isPublic updateData)
  | FmeetingLink =>
      from_option (fun v => set_meetingLink v e) e (p_meetingLink updateData)
  end.

Definition update (now : Z) (updateData : patch) : M t unit :=
  modify (fun this => foldl (fun e f => assign updateData f e) this allowedUpdates);;
  modify (set_updatedAt now).

(** The record [toJSON()] builds, as [JSON.stringify] writes it: dates
    become ISO text. *)
Record json : Type := mk_json {
  j_id : string;
  j_title : string;
  j_description : string;
  j_date : JS.jstime;
  j_time : string;
  j_duration : Z;
  j_maxParticipants : option Z;
  j_organizerId : string;
  j_participants : list string;
  j_participantCount : Z;
  j_availableSpots : option Z;
  j_status : string;
  j_category : string;
  j_isPublic : bool;
  j_meetingLink : option string;
  j_createdAt : JS.jstime;
  j_updatedAt : JS.jstime
}.

Definition toJSON (e : t) : json :=
  {| j_id := id e;
     j_title := title e;
     j_description := description e;
     j_date := JS.IsoString (date e);
     j_time := time e;
     j_duration := duration e;
     j_maxParticipants := maxParticipants e;
     j_organizerId := organizerId e;
     j_participants := participants e;
     j_participantCount := getParticipantCount e;
     j_availableSpots := getAvailableSpots e;
     j_status := status e;
     j_category := category e;
     j_isPublic := isPublic e;
     j_meetingLink := meetingLink e;
     j_createdAt := JS.IsoString (createdAt e);
     j_updatedAt := JS.IsoString (updatedAt e) |}.

(** One turn of the [map] in [loadFromFile]: [Object.create(Event.prototype)],
    [Object.assign(event, eventData)], then the three dates re-parsed. *)
Definition rehydrate (eventData : json) : t :=
  {| id := j_id eventData;
     title := j_title eventData;
     description := j_description eventData;
     date := JS.instant (JS.new_Date (j_date eventData));
     time := j_time eventData;
     duration := j_duration eventData;
     maxParticipants := j_maxParticipants eventData;
     organizerId := j_organizerId eventData;
     participants := j_participants eventData;
     status := j_status eventData;
     category := j_category eventData;
     isPublic := j_isPublic eventData;
     meetingLink := j_meetingLink eventData;
     createdAt := JS.instant (JS.new_Date (j_createdAt eventData));
     updatedAt := JS.instant (JS.new_Date (j_updatedAt eventData));
     derived := Some (j_participantCount eventData, j_availableSpots eventData) |}.

End Event.

(** ** models/Event.js: class EventStore *)

Module EventStore.

(** [events] is the in-memory array; [dataFile] is the content of
    [data/events.json] ([None]: the file does not exist). Writing the file
    is taken to succeed, and the file to hold what [saveToFile] wrote. *)
Record t : Type := mk {
  events : list Event.t;
  dataFile : option (list Event.json)
}.

Definition set_events (l : list Event.t) (s : t) : t := mk l (dataFile s).

Definition saveToFile : M t unit :=
  modify (fun this => mk (events this) (Some (Event.toJSON <$> events this))).

Definition loadFromFile : M t unit :=
  modify (fun this =>
    match dataFile this with
    | Some eventsData => mk (Event.rehydrate <$> eventsData) (dataFile this)
    | None => this
    end).

(** [new EventStore()] over the file found at start-up. *)
Definition new (file : option (list Event.json)) : t :=
  fst (loadFromFile (mk [] file)).

(** [this.events.find(event => event.id === id)], with the slot found. *)
Definition find_slot (id : string) (s : t) : option (nat * Event.t) :=
  list_find (fun event => Event.id event = id) (events s).

Definition findById (id : string) (s : t) : option Event.t :=
  snd <$> find_slot id s.

Definition findByOrganizer (organizerId : string) (s : t) : list Event.t :=
  filter (fun event => Event.organizerId event = organizerId) (events s).

Definition findByParticipant (participantId : string) (s : t) : list Event.t :=
  filter (fun event => participantId ∈ Event.participants event) (events s).

Definition count (s : t) : nat := length (events s).

Definition create (uuid : string) (now : Z) (eventData : Event.data)
    (organizerId : string) : M t Event.t :=
  let event := Event.new uuid now eventData organizerId in
  modify (fun this => set_events (events this ++ [event]) this);;
  saveToFile;;
  mret event.

(** The methods return the found event object; the embedding returns its
    value after the call. *)
Definition current (i : nat) (event : Event.t) : M t Event.t :=
  this ← get;
  mret (default event (events this !! i)).

Definition update (now : Z) (id : string) (updateData : Event.patch)
    (userId : string) : M t Event.t :=
  this ← get;
  match find_slot id this with
  | None => throw (NotFound AnEvent)
  | Some (i, event) =>
      throw_if (bool_decide (Event.organizerId event ≠ userId))
        (Unauthorized Updating);;
      at_index events set_events i (Event.update now updateData);;
      saveToFile;;
      current i event
  end.

Definition delete (id : string) (userId : string) : M t bool :=
  this ← get;
  match find_slot id this with
  | None => throw (NotFound AnEvent)
  | Some (eventIndex, event) =>
      throw_if (bool_decide (Event.organizerId event ≠ userId))
        (Unauthorized Deleting);;
      modify (fun this => set_events (base.delete eventIndex (events this)) this);;
      saveToFile;;
      mret true
  end.

Definition registerParticipant (now : Z) (eventId userId : string)
    : M t Event.t :=
  this ← get;
  match find_slot eventId this with
  | None => throw (NotFound AnEvent)
  | Some (i, event) =>
      at_index events set_events i (Event.addParticipant now userId);;
      saveToFile;;
      current i event
  end.

Definition unregisterParticipant (now : Z) (eventId userId : string)
    : M t Event.t :=
  this ← get;
  match find_slot eventId this with
  | None => throw (NotFound AnEvent)
  | Some (i, event) =>
      at_index events set_events i (Event.removeParticipant now userId);;
      saveToFile;;
      current i event
  end.

Definition clear : M t unit :=
  modify (set_events []);;
  saveToFile.

End EventStore.

(** ** models/User.js: class User *)

Module User.

(** [password] is [None] when the object has no such property, which is
    the case of a user read back from the snapshot. *)
Record t : Type := mk {
  id : string;
  email : string;
  password : option string;
  firstName : string;
  lastName : string;
  role : string;
  createdAt : JS.jstime;
  updatedAt : JS.jstime;
  isActive : bool
}.

Record data : Type := mk_data {
  d_email : string;
  d_password : string;
  d_firstName : string;
  d_lastName : string;
  d_role : option string
}.

(** The [updateData] argument of [update]; [None] is [undefined]. *)
Record patch : Type := mk_patch {
  p_firstName : option string;
  p_lastName : option string;
  p_email : option string
}.

Definition set_email (v : string) (u : t) : t :=
  mk (id u) v (password u) (firstName u) (lastName u) (role u)
     (createdAt u) (updatedAt u) (isActive u).
Definition set_password (v : option string) (u : t) : t :=
  mk (id u) (email u) v (firstName u) (lastName u) (role u)
     (createdAt u) (updatedAt u) (isActive u).
Definition set_firstName (v : string) (u : t) : t :=
  mk (id u) (email u) (password u) v (lastName u) (role u)
     (createdAt u) (updatedAt u) (isActive u).
Definition set_lastName (v : string) (u : t) : t :=
  mk (id u) (email u) (password u) (firstName u) v (role u)
     (createdAt u) (updatedAt u) (isActive u).
Definition set_updatedAt (v : JS.jstime) (u : t) : t :=
  mk (id u) (email u) (password u) (firstName u) (lastName u) (role u)
     (createdAt u) v (isActive u).
Definition set_isActive (v : bool) (u : t) : t :=
  mk (id u) (email u) (password u) (firstName u) (lastName u) (role u)
     (createdAt u) (updatedAt u) v.

(** [new User(userData)]. *)
Definition new (uuid : string) (now : Z) (userData : data) : t :=
  {| id := uuid;
     email := d_email userData;
     password := Some (d_password userData);
     firstName := d_firstName userData;
     lastName := d_lastName userData;
     role := JS.str_or (d_role userData) "attendee";
     createdAt := JS.DateObj now;
     updatedAt := JS.DateObj now;
     isActive := true |}.

(** [this.password = await bcrypt.hash(this.password, rounds)], with the
    hash function an input. *)
Definition hashPassword (bcrypt_hash : string -> string) : M t unit :=
  modify (fun this => set_password (bcrypt_hash <$> password this) this).

Inductive field : Type := FfirstName | FlastName | Femail.

Definition allowedUpdates : list field := [FfirstName; FlastName; Femail].

Definition assign (updateData : patch) (f : field) (u : t) : t :=
  match f with
  | FfirstName =>
      from_option (fun v => set_firstName v u) u (p_firstName updateData)
  | FlastName =>
      from_option (fun v => set_lastName v u) u (p_lastName updateData)
  | Femail => from_option (fun v => set_email v u) u (p_email updateData)
  end.

Definition update (now : Z) (updateData : patch) : M t unit :=
  modify (fun this => foldl (fun u f => assign updateData f u) this allowedUpdates);;
  modify (set_updatedAt (JS.DateObj now)).

(** What [JSON.stringify] writes for a user: it calls [toJSON()], which
    drops [password], and turns each [Date] into ISO text. *)
Record json : Type := mk_json {
  j_id : string;
  j_email : string;
  j_firstName : string;
  j_lastName : string;
  j_role : string;
  j_createdAt : JS.jstime;
  j_updatedAt : JS.jstime;
  j_isActive : bool
}.

Definition toJSON (u : t) : json :=
  {| j_id := id u;
     j_email := email u;
     j_firstName := firstName u;
     j_lastName := lastName u;
     j_role := role u;
     j_createdAt := JS.stringify_time (createdAt u);
     j_updatedAt := JS.stringify_time (updatedAt u);
     j_isActive := isActive u |}.

(** One turn of the [map] in [loadFromFile]: [Object.create(User.prototype)]
    and [Object.assign(user, userData)], nothing more. *)
Definition rehydrate (userData : json) : t :=
  {| id := j_id userData;
     email := j_email userData;
     password := None;
     firstName := j_firstName userData;
     lastName := j_lastName userData;
     role := j_role userData;
     createdAt := j_createdAt userData;
     updatedAt := j_updatedAt userData;
     isActive := j_isActive userData |}.

End User.

(** ** models/User.js: class UserStore *)

Module UserStore.

Record t : Type := mk {
  users : list User.t;
  dataFile : option (list User.json)
}.

Definition set_users (l : list User.t) (s : t) : t := mk l (dataFile s).

Definition saveToFile : M t unit :=
  modify (fun this => mk (users this) (Some (User.toJSON <$> users this))).

Definition loadFromFile : M t unit :=
  modify (fun this =>
    match dataFile this with
    | Some usersData => mk (User.rehydrate <$> usersData) (dataFile this)
    | None => this
    end).

Definition new (file : option (list User.json)) : t :=
  fst (loadFromFile (mk [] file)).

(** [this.users.find(user => user.email.toLowerCase() === email.toLowerCase())] *)
Definition find_email (email : string) (s : t) : option (nat * User.t) :=
  list_find
    (fun user => JS.toLowerCase (User.email user) = JS.toLowerCase email)
    (users s).

Definition find_slot (id : string) (s : t) : option (nat * User.t) :=
  list_find (fun user => User.id user = id) (users s).

Definition findById (id : string) (s : t) : option User.t :=
  snd <$> find_slot id s.

Definition findByEmail (email : string) (s : t) : option User.t :=
  snd <$> find_email email s.

Definition findByRole (role : string) (s : t) : list User.t :=
  filter (fun user => User.role user = role) (users s).

Definition count (s : t) : nat := length (users s).

Definition create (uuid : string) (now : Z) (bcrypt_hash : string -> string)
    (userData : User.data) : M t User.t :=
  this ← get;
  throw_if (bool_decide (is_Some (find_email (User.d_email userData) this)))
    DuplicateKey;;
  let user := fst (User.hashPassword bcrypt_hash (User.new uuid now userData)) in
  modify (fun this => set_users (users this ++ [user]) this);;
  saveToFile;;
  mret user.

Definition current (i : nat) (user : User.t) : M t User.t :=
  this ← get;
  mret (default user (users this !! i)).

(** [if (updateData.email && updateData.email !== user.email) { ... }] *)
Definition check_email (updateData : User.patch) (user : User.t)
    : M t unit :=
  this ← get;
  match User.p_email updateData with
  | Some e =>
      if JS.truthy_str e && negb (bool_decide (e = User.email user)) then
        throw_if (bool_decide (is_Some (find_email e this))) DuplicateKey
      else mret tt
  | None => mret tt
  end.

Definition update (now : Z) (id : string) (updateData : User.patch)
    : M t User.t :=
  this ← get;
  match find_slot id this with
  | None => throw (NotFound AUser)
  | Some (i, user) =>
      check_email updateData user;;
      at_index users set_users i (User.update now updateData);;
      saveToFile;;
      current i user
  end.

Definition delete (id : string) : M t bool :=
  this ← get;
  match find_slot id this with
  | None => throw (NotFound AUser)
  | Some (userIndex, _) =>
      modify (fun this => set_users (base.delete userIndex (users this)) this);;
      saveToFile;;
      mret true
  end.

Definition clear : M t unit :=
  modify (set_users []);;
  saveToFile.

End UserStore.

(** ** Properties of registration *)

Section Registration.

Implicit Types (e : Event.t) (s : EventStore.t) (now : Z) (userId : string).

(** Running a monadic program: the equations used to step through one. *)
Lemma run_bind {S A B} (m : M S A) (k : A -> M S B) (s : S) :
  (m ≫= k) s =
  match m s with
  | (s', Return a) => k a s'
  | (s', Throw e) => (s', Throw e)
  end.
Proof. reflexivity. Qed.

Lemma set_events_same s : EventStore.set_events (EventStore.events s) s = s.
Proof. by destruct s. Qed.

(** A method that throws without touching its record leaves the store as
    it was. *)
Lemma at_index_throw_same {A} s i e (m : M Event.t A) (err : Error) :
  EventStore.events s !! i = Some e ->
  m e = (e, Throw err) ->
  at_index EventStore.events EventStore.set_events i m s = (s, Throw err).
Proof.
  intros Hi Hm. unfold at_index. rewrite Hi, Hm.
  by rewrite list_insert_id, set_events_same.
Qed.

Lemma find_slot_lookup s eventId i e :
  EventStore.find_slot eventId s = Some (i, e) ->
  EventStore.events s !! i = Some e /\ Event.id e = eventId.
Proof.
  unfold EventStore.find_slot. intros H.
  apply list_find_Some in H. tauto.
Qed.

Lemma findById_slot s eventId e :
  EventStore.findById eventId s = Some e ->
  exists i, EventStore.find_slot eventId s = Some (i, e).
Proof.
  unfold EventStore.findById. intros H.
  destruct (EventStore.find_slot eventId s) as [[i e']|] eqn:E; [|done].
  simpl in H. exists i. congruence.
Qed.

Lemma at_capacity_true e n :
  Event.maxParticipants e = Some n -> (1 <= n)%Z ->
  Z.of_nat (length (Event.participants e)) = n ->
  Event.at_capacity e = true.
Proof.
  intros Hmax Hn Hlen. unfold Event.at_capacity. rewrite Hmax. simpl.
  apply andb_true_iff. split.
  - apply negb_true_iff, Z.eqb_neq. lia.
  - apply Z.leb_le. lia.
Qed.

Lemma addParticipant_at_capacity e now userId :
  Event.at_capacity e = true ->
  Event.addParticipant now userId e = (e, Throw EventFull).
Proof.
  intros Hfull. unfold Event.addParticipant.
  rewrite run_bind. simpl. rewrite run_bind. by rewrite Hfull.
Qed.

Lemma registerParticipant_at_capacity s eventId e now userId :
  EventStore.findById eventId s = Some e ->
  Event.at_capacity e = true ->
  EventStore.registerParticipant now eventId userId s = (s, Throw EventFull).
Proof.
  intros Hfind Hfull.
  destruct (findById_slot _ _ _ Hfind) as [i Hslot].
  destruct (find_slot_lookup _ _ _ _ Hslot) as [Hi _].
  unfold EventStore.registerParticipant.
  rewrite run_bind. simpl. rewrite Hslot, run_bind.
  by rewrite (at_index_throw_same s i e _ EventFull Hi
                (addParticipant_at_capacity e now userId Hfull)).
Qed.

(** C1. An event whose [maxParticipants] is [N >= 1] and that already has
    [N] participants rejects any further registration with [EventFull],
    through [Event.addParticipant] and through
    [EventStore.registerParticipant] alike, and the failed call leaves the
    event, the whole collection and the snapshot file exactly as they
    were. *)
Theorem register_on_full_event_fails_unchanged
    s eventId e (n : Z) now userId :
  EventStore.findById eventId s = Some e ->
  Event.maxParticipants e = Some n ->
  (1 <= n)%Z ->
  Z.of_nat (length (Event.participants e)) = n ->
  Event.addParticipant now userId e = (e, Throw EventFull)
  /\ EventStore.registerParticipant now eventId userId s = (s, Throw EventFull).
Proof.
  intros Hfind Hmax Hn Hlen.
  pose proof (at_capacity_true e n Hmax Hn Hlen) as Hfull.
  split.
  - by apply addParticipant_at_capacity.
  - by apply (registerParticipant_at_capacity s eventId e).
Qed.

(** A store built by the code itself: one event of capacity 2, created by
    its organizer, with two registrations. *)
Definition webinar : Event.data :=
  Event.mk_data "Intro webinar" "A first look at the platform"
    (JS.IsoString 1767225600000) "14:30" None (Some 2%Z) None None None None.

Definition run_events (steps : list (M EventStore.t Event.t))
    (s : EventStore.t) : EventStore.t :=
  foldl (fun s step => fst (step s)) s steps.

Definition full_store : EventStore.t :=
  run_events
    [EventStore.create "ev-1" 100 webinar "org-1";
     EventStore.registerParticipant 110 "ev-1" "alice";
     EventStore.registerParticipant 120 "ev-1" "bob"]
    (EventStore.new None).

Definition full_event : Event.t :=
  Event.mk "ev-1" "Intro webinar" "A first look at the platform"
    1767225600000 "14:30" 60 (Some 2%Z) "org-1" ["alice"; "bob"]
    "scheduled" "general" true None 100 120 None.

Lemma full_store_events : EventStore.events full_store = [full_event].
Proof. reflexivity. Qed.

Lemma register_on_full_event_witness :
  Event.addParticipant 130 "carol" full_event = (full_event, Throw EventFull)
  /\ EventStore.registerParticipant 130 "ev-1" "carol" full_store
     = (full_store, Throw EventFull).
Proof.
  apply (register_on_full_event_fails_unchanged
           full_store "ev-1" full_event 2 130 "carol");
    [reflexivity | reflexivity | lia | reflexivity].
Defined.

(** The admission scenario on an event of capacity 2: A and B get in, C
    is refused, A leaves, C gets in. *)
Example capacity_two_scenario :
  let s0 := fst (EventStore.create "ev-1" 100 webinar "org-1"
                   (EventStore.new None)) in
  let s1 := fst (EventStore.registerParticipant 110 "ev-1" "A" s0) in
  let s2 := fst (EventStore.registerParticipant 120 "ev-1" "B" s1) in
  let r3 := EventStore.registerParticipant 130 "ev-1" "C" s2 in
  let s4 := fst (EventStore.unregisterParticipant 140 "ev-1" "A" (fst r3)) in
  let s5 := fst (EventStore.registerParticipant 150 "ev-1" "C" s4) in
  r3 = (s2, Throw EventFull)
  /\ Event.participants <$> EventStore.events s2 = [["A"; "B"]]
  /\ Event.participants <$> EventStore.events s4 = [["B"]]
  /\ Event.participants <$> EventStore.events s5 = [["B"; "C"]]
  /\ EventStore.dataFile s5 = Some (Event.toJSON <$> EventStore.events s5).
Proof. vm_compute. repeat split. Qed.

(** *** Duplicate and absent registrations *)

Lemma addParticipant_duplicate e now userId :
  Event.at_capacity e = false ->
  userId ∈ Event.participants e ->
  Event.addParticipant now userId e = (e, Throw AlreadyRegistered).
Proof.
  intros Hroom Hin. unfold Event.addParticipant.
  rewrite run_bind. simpl. rewrite run_bind, Hroom. simpl.
  rewrite run_bind. simpl. rewrite run_bind.
  by rewrite bool_decide_eq_true_2.
Qed.

Lemma indexOf_absent userId (l : list string) :
  userId ∉ l -> Event.indexOf userId l = None.
Proof.
  intros Hnin. unfold Event.indexOf.
  destruct (list_find (fun x => x = userId) l) as [[i x]|] eqn:E; [|done].
  apply list_find_Some in E as (Hi & -> & _).
  exfalso. apply Hnin. by eapply list_elem_of_lookup_2.
Qed.

Lemma removeParticipant_absent e now userId :
  userId ∉ Event.participants e ->
  Event.removeParticipant now userId e = (e, Throw NotRegistered).
Proof.
  intros Hnin. unfold Event.removeParticipant.
  rewrite run_bind. simpl. by rewrite indexOf_absent.
Qed.

Lemma unregisterParticipant_throw_same s eventId e now userId err :
  EventStore.findById eventId s = Some e ->
  Event.removeParticipant now userId e = (e, Throw err) ->
  EventStore.unregisterParticipant now eventId userId s = (s, Throw err).
Proof.
  intros Hfind Hm.
  destruct (findById_slot _ _ _ Hfind) as [i Hslot].
  destruct (find_slot_lookup _ _ _ _ Hslot) as [Hi _].
  unfold EventStore.unregisterParticipant.
  rewrite run_bind. simpl. rewrite Hslot, run_bind.
  by rewrite (at_index_throw_same s i e _ err Hi Hm).
Qed.

Lemma registerParticipant_throw_same s eventId e now userId err :
  EventStore.findById eventId s = Some e ->
  Event.addParticipant now userId e = (e, Throw err) ->
  EventStore.registerParticipant now eventId userId s = (s, Throw err).
Proof.
  intros Hfind Hm.
  destruct (findById_slot _ _ _ Hfind) as [i Hslot].
  destruct (find_slot_lookup _ _ _ _ Hslot) as [Hi _].
  unfold EventStore.registerParticipant.
  rewrite run_bind. simpl. rewrite Hslot, run_bind.
  by rewrite (at_index_throw_same s i e _ err Hi Hm).
Qed.

(** C3, as stated, fails: the capacity test comes first in
    [addParticipant], so a participant of a full event who registers again
    is told [EventFull], not [AlreadyRegistered]. *)
Lemma reregister_on_full_event_is_EventFull :
  ~ (forall e now userId,
       userId ∈ Event.participants e ->
       snd (Event.addParticipant now userId e) = Throw AlreadyRegistered).
Proof.
  intros H. specialize (H full_event 130%Z "alice").
  assert (Hin : "alice" ∈ Event.participants full_event)
    by (apply list_elem_of_here).
  specialize (H Hin). vm_compute in H. discriminate H.
Qed.

(** C3, amended. For every event [e] of the store and user id [userId]:
    if [userId] is already a participant and [e] is not at capacity,
    registering it again fails with [AlreadyRegistered]; if [userId] is not
    a participant, unregistering it fails with [NotRegistered]; both
    failures, through the event's method and through the store's, leave the
    event (participants and [updatedAt] included), the collection and the
    snapshot file unchanged. *)
Theorem duplicate_and_absent_registration_fail_unchanged
    s eventId e now userId :
  EventStore.findById eventId s = Some e ->
  (userId ∈ Event.participants e ->
   Event.at_capacity e = false ->
   Event.addParticipant now userId e = (e, Throw AlreadyRegistered)
   /\ EventStore.registerParticipant now eventId userId s
      = (s, Throw AlreadyRegistered))
  /\ (userId ∉ Event.participants e ->
      Event.removeParticipant now userId e = (e, Throw NotRegistered)
      /\ EventStore.unregisterParticipant now eventId userId s
         = (s, Throw NotRegistered)).
Proof.
  intros Hfind. split.
  - intros Hin Hroom.
    pose proof (addParticipant_duplicate e now userId Hroom Hin) as Hm.
    split; [done|]. by apply (registerParticipant_throw_same s eventId e).
  - intros Hnin.
    pose proof (removeParticipant_absent e now userId Hnin) as Hm.
    split; [done|]. by apply (unregisterParticipant_throw_same s eventId e).
Qed.

(** The store of [full_store] after "bob" has left: one seat is free. *)
Definition open_store : EventStore.t :=
  run_events [EventStore.unregisterParticipant 125 "ev-1" "bob"] full_store.

Definition open_event : Event.t :=
  Event.set_updatedAt 125 (Event.set_participants ["alice"] full_event).

Lemma duplicate_and_absent_registration_witness :
  (Event.addParticipant 130 "alice" open_event
   = (open_event, Throw AlreadyRegistered)
   /\ EventStore.registerParticipant 130 "ev-1" "alice" open_store
      = (open_store, Throw AlreadyRegistered))
  /\ (Event.removeParticipant 130 "bob" open_event
      = (open_event, Throw NotRegistered)
      /\ EventStore.unregisterParticipant 130 "ev-1" "bob" open_store
         = (open_store, Throw NotRegistered)).
Proof.
  destruct (duplicate_and_absent_registration_fail_unchanged
              open_store "ev-1" open_event 130 "alice" eq_refl) as [Hdup _].
  destruct (duplicate_and_absent_registration_fail_unchanged
              open_store "ev-1" open_event 130 "bob" eq_refl) as [_ Habs].
  split.
  - apply Hdup; [apply list_elem_of_here | reflexivity].
  - apply Habs. intros Hin. apply list_elem_of_In in Hin.
    simpl in Hin. destruct Hin as [Hin|[]]. discriminate Hin.
Defined.

(** *** A capacity of 0 *)

Lemma addParticipant_admits e now userId :
  Event.at_capacity e = false ->
  userId ∉ Event.participants e ->
  Event.addParticipant now userId e
  = (Event.set_updatedAt now
       (Event.set_participants (Event.participants e ++ [userId]) e),
     Return true).
Proof.
  intros Hroom Hnin. unfold Event.addParticipant.
  rewrite run_bind. simpl. rewrite run_bind, Hroom. simpl.
  rewrite run_bind. simpl. rewrite run_bind.
  by rewrite bool_decide_eq_false_2.
Qed.

Lemma at_capacity_zero e :
  Event.maxParticipants e = Some 0%Z -> Event.at_capacity e = false.
Proof. intros H. unfold Event.at_capacity. by rewrite H. Qed.

(** [addParticipant] called for each id of a list in turn, stopping at
    the first that throws. *)
Fixpoint addParticipants (now : Z) (userIds : list string) : M Event.t unit :=
  match userIds with
  | [] => mret tt
  | userId :: rest =>
      Event.addParticipant now userId;; addParticipants now rest
  end.

Lemma addParticipants_zero_capacity now userIds : forall e,
  Event.maxParticipants e = Some 0%Z ->
  NoDup userIds ->
  (forall u, u ∈ userIds -> u ∉ Event.participants e) ->
  exists e',
    addParticipants now userIds e = (e', Return tt)
    /\ Event.participants e' = Event.participants e ++ userIds
    /\ Event.maxParticipants e' = Some 0%Z.
Proof.
  induction userIds as [|u rest IH]; intros e Hmax Hnd Hfresh.
  - exists e. simpl. by rewrite app_nil_r.
  - apply NoDup_cons in Hnd as [Hu Hnd].
    set (e1 := Event.set_updatedAt now
                 (Event.set_participants (Event.participants e ++ [u]) e)).
    destruct (IH e1) as (e' & Hrun & Hps & Hmax'); [done|done| |].
    + intros v Hv Hin. simpl in Hin. apply elem_of_app in Hin as [Hin|Hin].
      * by apply (Hfresh v); [apply list_elem_of_further|].
      * apply list_elem_of_singleton in Hin. by subst.
    + exists e'. split; [|split; [|done]].
      * simpl. rewrite run_bind.
        rewrite addParticipant_admits;
          [| by apply at_capacity_zero | apply Hfresh, list_elem_of_here].
        exact Hrun.
      * rewrite Hps. simpl. by rewrite <- app_assoc.
Qed.


(** The organizer sets the capacity of the full event to 0 (the store's
    [update] writes the field as given). *)
Definition zero_patch : Event.patch :=
  Event.mk_patch None None None None None (Some (Some 0%Z)) None None None None.

Definition zero_store : EventStore.t :=
  run_events [EventStore.update 140 "ev-1" zero_patch "org-1"] full_store.

Definition zero_event : Event.t :=
  Event.set_updatedAt 140 (Event.set_maxParticipants (Some 0%Z) full_event).


End Registration.

(** ** Ownership: only the organizer updates or deletes *)

Section Ownership.

Implicit Types (e : Event.t) (s : EventStore.t).

(** In an array whose keys are distinct, [find] by the key of a stored
    record returns that record. *)
Lemma list_find_key {A K} `{EqDecision K} (key : A -> K) (l : list A) (x : A) :
  x ∈ l ->
  NoDup (key <$> l) ->
  exists i, list_find (fun y => key y = key x) l = Some (i, x).
Proof.
  induction l as [|y l IH]; intros Hin Hnd.
  - by apply elem_of_nil in Hin.
  - simpl in Hnd. apply NoDup_cons in Hnd as [Hy Hnd].
    apply elem_of_cons in Hin as [->|Hin].
    + exists 0. simpl. by rewrite decide_True.
    + destruct (IH Hin Hnd) as [i Hi].
      exists (S i). simpl. rewrite decide_False.
      * by rewrite Hi.
      * intros Heq. apply Hy. rewrite Heq. by apply list_elem_of_fmap_2.
Qed.

Lemma find_slot_stored (l : list Event.t) e :
  e ∈ l ->
  NoDup (Event.id <$> l) ->
  exists i, list_find (fun event => Event.id event = Event.id e) l = Some (i, e).
Proof. apply (list_find_key Event.id). Qed.

Lemma update_by_stranger s eventId i e now updateData userId :
  EventStore.find_slot eventId s = Some (i, e) ->
  userId <> Event.organizerId e ->
  EventStore.update now eventId updateData userId s
  = (s, Throw (Unauthorized Updating)).
Proof.
  intros Hslot Hne. unfold EventStore.update.
  rewrite run_bind. simpl. rewrite Hslot, run_bind.
  by rewrite bool_decide_eq_true_2.
Qed.

Lemma delete_by_stranger s eventId i e userId :
  EventStore.find_slot eventId s = Some (i, e) ->
  userId <> Event.organizerId e ->
  EventStore.delete eventId userId s = (s, Throw (Unauthorized Deleting)).
Proof.
  intros Hslot Hne. unfold EventStore.delete.
  rewrite run_bind. simpl. rewrite Hslot, run_bind.
  by rewrite bool_decide_eq_true_2.
Qed.

(** C4. For every event [e] stored in a collection with distinct ids and
    every acting user other than [e]'s organizer, [update] and [delete] on
    [e]'s id fail with [Unauthorized], and the store afterwards is the
    store before: [e] is still in the collection, every field as it was,
    and nothing was written to the snapshot file. *)
Theorem update_delete_by_non_organizer_unauthorized
    s e now updateData userId :
  e ∈ EventStore.events s ->
  NoDup (Event.id <$> EventStore.events s) ->
  userId <> Event.organizerId e ->
  EventStore.update now (Event.id e) updateData userId s
  = (s, Throw (Unauthorized Updating))
  /\ EventStore.delete (Event.id e) userId s
     = (s, Throw (Unauthorized Deleting))
  /\ e ∈ EventStore.events
           (fst (EventStore.update now (Event.id e) updateData userId s))
  /\ e ∈ EventStore.events (fst (EventStore.delete (Event.id e) userId s)).
Proof.
  intros Hin Hnd Hne.
  destruct (find_slot_stored _ e Hin Hnd) as [i Hslot].
  pose proof (update_by_stranger s (Event.id e) i e now updateData userId
                Hslot Hne) as Hupd.
  pose proof (delete_by_stranger s (Event.id e) i e userId Hslot Hne) as Hdel.
  rewrite Hupd, Hdel. by repeat split.
Qed.

Definition retitle : Event.patch :=
  Event.mk_patch (Some "Hacked") None None None None None None None None None.

Lemma update_delete_by_non_organizer_witness :
  EventStore.update 200 "ev-1" retitle "mallory" full_store
  = (full_store, Throw (Unauthorized Updating))
  /\ EventStore.delete "ev-1" "mallory" full_store
     = (full_store, Throw (Unauthorized Deleting))
  /\ full_event ∈ EventStore.events
        (fst (EventStore.update 200 "ev-1" retitle "mallory" full_store))
  /\ full_event ∈ EventStore.events
        (fst (EventStore.delete "ev-1" "mallory" full_store)).
Proof.
  apply (update_delete_by_non_organizer_unauthorized
           full_store full_event 200 retitle "mallory").
  - apply list_elem_of_here.
  - apply (bool_decide_unpack _). vm_compute. exact I.
  - discriminate.
Defined.

End Ownership.

(** ** The capacity bound *)

Section Capacity.

Implicit Types (e : Event.t) (s : EventStore.t).

(** [participants.length <= maxParticipants] whenever the latter is not
    [null]. *)
Definition within_capacity e : Prop :=
  match Event.maxParticipants e with
  | Some n => (Z.of_nat (length (Event.participants e)) <= n)%Z
  | None => True
  end.

#[local] Instance within_capacity_dec e : Decision (within_capacity e).
Proof. unfold within_capacity. destruct (Event.maxParticipants e); apply _. Defined.

(** Registration keeps the bound (for a capacity other than 0, which
    switches the capacity test off), and so does unregistration. *)
Lemma addParticipant_within_capacity e now userId :
  within_capacity e ->
  Event.maxParticipants e <> Some 0%Z ->
  within_capacity (fst (Event.addParticipant now userId e)).
Proof.
  intros Hcap Hnz.
  destruct (Event.at_capacity e) eqn:Hfull.
  - by rewrite addParticipant_at_capacity.
  - destruct (decide (userId ∈ Event.participants e)) as [Hin|Hnin].
    + by rewrite addParticipant_duplicate.
    + rewrite addParticipant_admits by done.
      unfold within_capacity in *. simpl.
      unfold Event.at_capacity in Hfull.
      destruct (Event.maxParticipants e) as [n|]; [|done].
      simpl in Hfull. rewrite length_app. simpl.
      apply andb_false_iff in Hfull as [Hz|Hlt].
      * apply negb_false_iff, Z.eqb_eq in Hz. congruence.
      * apply Z.leb_gt in Hlt. lia.
Qed.

Lemma removeParticipant_within_capacity e now userId :
  within_capacity e ->
  within_capacity (fst (Event.removeParticipant now userId e)).
Proof.
  intros Hcap. unfold Event.removeParticipant.
  rewrite run_bind. simpl.
  destruct (Event.indexOf userId (Event.participants e)) as [i|] eqn:Hi;
    [|done].
  unfold within_capacity in *. simpl.
  destruct (Event.maxParticipants e) as [n|]; [|done].
  rewrite length_delete; [lia|].
  unfold Event.indexOf in Hi.
  destruct (list_find _ _) as [[j x]|] eqn:E; [|done].
  simpl in Hi. injection Hi as ->.
  apply list_find_Some in E as (Hx & _). by exists x.
Qed.

(** [Event.update] writes [maxParticipants] as given and leaves the
    participants alone. *)
Lemma assign_participants updateData f e :
  Event.participants (Event.assign updateData f e) = Event.participants e.
Proof.
  destruct f; simpl;
    match goal with |- context [from_option _ _ ?o] => by destruct o end.
Qed.

Lemma assign_maxParticipants updateData f e :
  Event.maxParticipants (Event.assign updateData f e)
  = match f with
    | Event.FmaxParticipants =>
        default (Event.maxParticipants e) (Event.p_maxParticipants updateData)
    | _ => Event.maxParticipants e
    end.
Proof.
  destruct f; simpl;
    match goal with |- context [from_option _ _ ?o] => by destruct o end.
Qed.

Lemma update_maxParticipants e now updateData v :
  Event.p_maxParticipants updateData = Some v ->
  Event.maxParticipants (fst (Event.update now updateData e)) = v
  /\ Event.participants (fst (Event.update now updateData e))
     = Event.participants e.
Proof.
  intros Hv.
  assert (Hrun : fst (Event.update now updateData e)
                 = Event.set_updatedAt now
                     (foldl (fun e f => Event.assign updateData f e) e
                        Event.allowedUpdates)) by reflexivity.
  rewrite Hrun. unfold Event.allowedUpdates.
  cbn [foldl Event.set_updatedAt Event.maxParticipants Event.participants].
  rewrite !assign_maxParticipants, !assign_participants, Hv. done.
Qed.

(** C2. The capacity bound is not kept by [EventStore.update]: on the
    store built by one [create] (capacity 2) and two registrations, the
    organizer's patch [{maxParticipants: 1}] is accepted, written through,
    and leaves an event with two participants and a capacity of one. *)
Theorem update_lowers_capacity_below_count :
  let shrink :=
    Event.mk_patch None None None None None (Some (Some 1%Z))
      None None None None in
  Forall within_capacity (EventStore.events full_store)
  /\ exists s' e',
       EventStore.update 140 "ev-1" shrink "org-1" full_store
       = (s', Return e')
       /\ EventStore.events s' = [e']
       /\ Event.maxParticipants e' = Some 1%Z
       /\ Event.participants e' = ["alice"; "bob"]
       /\ ~ within_capacity e'.
Proof.
  intros shrink. split.
  - apply (bool_decide_unpack _). vm_compute. exact I.
  - eexists _, _. split; [reflexivity|].
    repeat split. vm_compute. intros H. by apply H.
Qed.

(** The same for every event: lowering [maxParticipants] under the
    number of participants is accepted by the event's [update]. *)
Lemma update_below_count_breaks_bound e now updateData (n : Z) :
  Event.p_maxParticipants updateData = Some (Some n) ->
  (n < Z.of_nat (length (Event.participants e)))%Z ->
  ~ within_capacity (fst (Event.update now updateData e)).
Proof.
  intros Hp Hlt.
  destruct (update_maxParticipants e now updateData _ Hp) as [Hmax Hps].
  unfold within_capacity. rewrite Hmax, Hps. lia.
Qed.

End Capacity.

(** ** Emails: case-insensitive uniqueness *)

Section Emails.

Variable bcrypt_hash : string -> string.

Implicit Types (u : User.t) (s : UserStore.t) (d : User.data).

Definition lower_email u : string := JS.toLowerCase (User.email u).

(** The user object [create] builds and stores. *)
Definition created (uuid : string) (now : Z) d : User.t :=
  fst (User.hashPassword bcrypt_hash (User.new uuid now d)).

(** A [create] call: the id and time it draws, and its argument. *)
Definition signup : Type := string * Z * User.data.

Definition signup_user (r : signup) : User.t :=
  created r.1.1 r.1.2 r.2.

Definition signup_email (r : signup) : string :=
  JS.toLowerCase (User.d_email r.2).

(** A sequence of [create] calls, stopping at the first that throws. *)
Fixpoint createAll (reqs : list signup) : M UserStore.t (list User.t) :=
  match reqs with
  | [] => mret []
  | r :: rest =>
      user ← UserStore.create r.1.1 r.1.2 bcrypt_hash r.2;
      others ← createAll rest;
      mret (user :: others)
  end.

Lemma set_users_same s : UserStore.set_users (UserStore.users s) s = s.
Proof. by destruct s. Qed.

Lemma find_email_None s (e : string) :
  UserStore.find_email e s = None <->
  forall u, u ∈ UserStore.users s -> lower_email u <> JS.toLowerCase e.
Proof.
  unfold UserStore.find_email. rewrite list_find_None, Forall_forall.
  split; intros H u Hu; by apply (H u).
Qed.

Lemma find_email_Some s (e : string) u :
  u ∈ UserStore.users s ->
  lower_email u = JS.toLowerCase e ->
  is_Some (UserStore.find_email e s).
Proof.
  intros Hin Heq.
  destruct (UserStore.find_email e s) as [r|] eqn:E; [by exists r|].
  exfalso. by apply (proj1 (find_email_None s e) E u).
Qed.

Lemma create_fresh s uuid now d :
  UserStore.find_email (User.d_email d) s = None ->
  UserStore.create uuid now bcrypt_hash d s
  = (UserStore.mk (UserStore.users s ++ [created uuid now d])
       (Some (User.toJSON <$> UserStore.users s ++ [created uuid now d])),
     Return (created uuid now d)).
Proof.
  intros Hnone. unfold UserStore.create.
  rewrite run_bind. simpl. rewrite run_bind, Hnone.
  by rewrite bool_decide_eq_false_2 by (by intros [? ?]).
Qed.

Lemma create_taken s uuid now d :
  is_Some (UserStore.find_email (User.d_email d) s) ->
  UserStore.create uuid now bcrypt_hash d s = (s, Throw DuplicateKey).
Proof.
  intros Hsome. unfold UserStore.create.
  rewrite run_bind. simpl. rewrite run_bind.
  by rewrite bool_decide_eq_true_2.
Qed.

Lemma lower_email_created uuid now d :
  lower_email (created uuid now d) = JS.toLowerCase (User.d_email d).
Proof. reflexivity. Qed.

Lemma createAll_distinct (reqs : list signup) : forall s0,
  NoDup ((lower_email <$> UserStore.users s0) ++ (signup_email <$> reqs)) ->
  exists s,
    createAll reqs s0 = (s, Return (signup_user <$> reqs))
    /\ UserStore.users s = UserStore.users s0 ++ (signup_user <$> reqs).
Proof.
  induction reqs as [|r rest IH]; intros s0 Hnd.
  - exists s0. simpl. by rewrite app_nil_r.
  - destruct r as [[uuid now] d].
    assert (Hfresh : UserStore.find_email (User.d_email d) s0 = None).
    { apply find_email_None. intros u Hu Heq.
      apply NoDup_app in Hnd as (_ & Hdisj & _).
      apply (Hdisj (lower_email u)); [by apply list_elem_of_fmap_2|].
      rewrite Heq. apply list_elem_of_here. }
    pose proof (create_fresh s0 uuid now d Hfresh) as Hc.
    set (s1 := UserStore.mk (UserStore.users s0 ++ [created uuid now d])
                 (Some (User.toJSON <$> UserStore.users s0 ++ [created uuid now d])))
      in Hc.
    destruct (IH s1) as (s & Hrun & Hus).
    { simpl. rewrite fmap_app, <- app_assoc. exact Hnd. }
    exists s. split.
    + simpl. rewrite run_bind. simpl. rewrite Hc, run_bind, Hrun. done.
    + rewrite Hus. simpl. by rewrite <- app_assoc.
Qed.

Lemma findByEmail_unique s u (e : string) :
  NoDup (lower_email <$> UserStore.users s) ->
  u ∈ UserStore.users s ->
  JS.toLowerCase e = lower_email u ->
  UserStore.findByEmail e s = Some u.
Proof.
  intros Hnd Hin He.
  destruct (list_find_key lower_email _ u Hin Hnd) as [i Hi].
  unfold UserStore.findByEmail, UserStore.find_email.
  rewrite He.
  change (snd <$> list_find (fun y => lower_email y = lower_email u)
                    (UserStore.users s) = Some u).
  by rewrite Hi.
Qed.


End Emails.

(** A store built by the code from an empty one: a single user who signed
    up with a mixed-case email (as [tests/models.test.js] does). The hash
    function stands in for [bcrypt.hash]. *)
Definition salted (p : string) : string := "$2a$12$" ++ p.

Definition john : User.data :=
  User.mk_data "Test@Example.com" "Test123!@#" "John" "Doe" None.

Definition jane : User.data :=
  User.mk_data "jane@example.com" "Secret456$%^" "Jane" "Roe" (Some "organizer").

Definition john_lower : User.data :=
  User.mk_data "test@example.com" "Other789&*(" "Johnny" "Doe" None.

Definition john_store : UserStore.t :=
  fst (UserStore.create "u-1" 10 salted john (UserStore.new None)).

Definition john_user : User.t := created salted "u-1" 10 john.

Lemma john_store_users : UserStore.users john_store = [john_user].
Proof. reflexivity. Qed.


Example findByEmail_upper_case :
  UserStore.findByEmail "TEST@EXAMPLE.COM" john_store = Some john_user.
Proof. reflexivity. Qed.

(** ** Emails: what is stored *)




(** ** Emails: the duplicate check of [update] *)

Section UpdateEmail.

Implicit Types (u : User.t) (s : UserStore.t) (e : string).

Lemma user_slot_lookup s id i u :
  UserStore.find_slot id s = Some (i, u) ->
  UserStore.users s !! i = Some u /\ u ∈ UserStore.users s.
Proof.
  unfold UserStore.find_slot. intros H.
  apply list_find_Some in H as (Hi & _ & _).
  split; [done|]. by eapply list_elem_of_lookup_2.
Qed.

(** What the guard of [update] does with an email [e] in the patch. *)
Lemma check_email_run s u e (p : User.patch) :
  User.p_email p = Some e ->
  UserStore.check_email p u s
  = if JS.truthy_str e && negb (bool_decide (e = User.email u))
       && bool_decide (is_Some (UserStore.find_email e s))
    then (s, Throw DuplicateKey) else (s, Return tt).
Proof.
  intros Hp. unfold UserStore.check_email. rewrite run_bind. simpl.
  rewrite Hp.
  destruct (JS.truthy_str e && negb (bool_decide (e = User.email u)));
    [|done].
  simpl. by destruct (bool_decide (is_Some (UserStore.find_email e s))).
Qed.

(** Once the guard has passed, [update] runs to the end. *)
Lemma update_after_check s id i u now (p : User.patch) :
  UserStore.find_slot id s = Some (i, u) ->
  UserStore.check_email p u s = (s, Return tt) ->
  exists s' u', UserStore.update now id p s = (s', Return u').
Proof.
  intros Hslot Hcheck.
  destruct (user_slot_lookup _ _ _ _ Hslot) as [Hi _].
  unfold UserStore.update. rewrite run_bind. simpl.
  rewrite Hslot, run_bind, Hcheck, run_bind.
  unfold at_index at 1. rewrite Hi. simpl. eauto.
Qed.

(** The code's rule: with [e] in the patch, [update] fails with
    [DuplicateKey] exactly when [e] is non-empty, differs from the stored
    email as a string, and equals case-insensitively the email of some
    stored user, the updated user included. *)
Lemma update_DuplicateKey_iff s id i u now e (p : User.patch) :
  UserStore.find_slot id s = Some (i, u) ->
  User.p_email p = Some e ->
  snd (UserStore.update now id p s) = Throw DuplicateKey
  <-> e <> "" /\ e <> User.email u
     /\ exists u', u' ∈ UserStore.users s
                  /\ JS.toLowerCase (User.email u') = JS.toLowerCase e.
Proof.
  intros Hslot Hp.
  pose proof (check_email_run s u e p Hp) as Hcheck.
  destruct (JS.truthy_str e && negb (bool_decide (e = User.email u))
            && bool_decide (is_Some (UserStore.find_email e s))) eqn:Hg.
  - apply andb_true_iff in Hg as [Hg Hfound].
    apply andb_true_iff in Hg as [Hne Hdiff].
    split.
    + intros _. split; [|split].
      * unfold JS.truthy_str in Hne. apply negb_true_iff in Hne.
        by apply bool_decide_eq_false in Hne.
      * apply negb_true_iff in Hdiff. by apply bool_decide_eq_false in Hdiff.
      * apply bool_decide_eq_true in Hfound. destruct Hfound as [[j u'] Hf].
        unfold UserStore.find_email in Hf.
        apply list_find_Some in Hf as (Hj & Heq & _).
        exists u'. split; [by eapply list_elem_of_lookup_2|done].
    + intros _. unfold UserStore.update. rewrite run_bind. simpl.
      by rewrite Hslot, run_bind, Hcheck.
  - split.
    + intros Hthrow.
      destruct (update_after_check s id i u now p Hslot Hcheck)
        as (s' & u' & Hrun).
      rewrite Hrun in Hthrow. discriminate Hthrow.
    + intros (Hne & Hdiff & u' & Hin & Heq). exfalso.
      apply andb_false_iff in Hg as [Hg|Hfound].
      * apply andb_false_iff in Hg as [Hg|Hg].
        -- unfold JS.truthy_str in Hg. apply negb_false_iff in Hg.
           by apply bool_decide_eq_true in Hg.
        -- apply negb_false_iff in Hg. by apply bool_decide_eq_true in Hg.
      * apply bool_decide_eq_false in Hfound. apply Hfound.
        by apply (find_email_Some s e u').
Qed.

(** So a user can never change the capitals of its own email. *)
Lemma update_own_case_variant s id i u now e (p : User.patch) :
  UserStore.find_slot id s = Some (i, u) ->
  User.p_email p = Some e ->
  e <> "" -> e <> User.email u ->
  JS.toLowerCase e = JS.toLowerCase (User.email u) ->
  UserStore.update now id p s = (s, Throw DuplicateKey).
Proof.
  intros Hslot Hp Hne Hdiff Hcase.
  destruct (user_slot_lookup _ _ _ _ Hslot) as [_ Hin].
  unfold UserStore.update. rewrite run_bind. simpl.
  rewrite Hslot, run_bind, (check_email_run s u e p Hp).
  unfold JS.truthy_str.
  rewrite (bool_decide_eq_false_2 (e = "") Hne).
  rewrite (bool_decide_eq_false_2 (e = User.email u) Hdiff).
  rewrite bool_decide_eq_true_2; [done|].
  by apply (find_email_Some s e u).
Qed.

(** C7. On the store holding the single user who signed up as
    ["Test@Example.com"], [update] of that user's email to
    ["test@example.com"] is rejected with [DuplicateKey], the store left as
    it was, although no other user exists: the duplicate search of [update]
    does not leave out the user being updated. *)
Theorem update_email_to_own_case_variant_is_DuplicateKey :
  UserStore.users john_store = [john_user]
  /\ User.email john_user = "Test@Example.com"
  /\ UserStore.update 40 "u-1"
       (User.mk_patch None None (Some "test@example.com")) john_store
     = (john_store, Throw DuplicateKey).
Proof. by repeat split. Qed.

End UpdateEmail.

(** ** Persistence: save, restart, load *)

Section Persistence.

(** A restart: the process ends after [saveToFile], and a new store is
    constructed over the file. *)
Definition restart_users (s : UserStore.t) : UserStore.t :=
  UserStore.new (UserStore.dataFile (fst (UserStore.saveToFile s))).

Definition restart_events (s : EventStore.t) : EventStore.t :=
  EventStore.new (EventStore.dataFile (fst (EventStore.saveToFile s))).

Lemma restart_users_eq s :
  UserStore.users (restart_users s)
  = (fun u => User.rehydrate (User.toJSON u)) <$> UserStore.users s.
Proof.
  unfold restart_users, UserStore.new. simpl.
  by rewrite <- list_fmap_compose.
Qed.

Lemma restart_events_eq s :
  EventStore.events (restart_events s)
  = (fun e => Event.rehydrate (Event.toJSON e)) <$> EventStore.events s.
Proof.
  unfold restart_events, EventStore.new. simpl.
  by rewrite <- list_fmap_compose.
Qed.

(** Events come back with every field of the constructor as it was, dates
    as dates, participants in order; the reloaded object also carries the
    two derived values of the snapshot record. *)
Lemma event_reloaded (e : Event.t) :
  Event.rehydrate (Event.toJSON e)
  = Event.mk (Event.id e) (Event.title e) (Event.description e)
      (Event.date e) (Event.time e) (Event.duration e)
      (Event.maxParticipants e) (Event.organizerId e) (Event.participants e)
      (Event.status e) (Event.category e) (Event.isPublic e)
      (Event.meetingLink e) (Event.createdAt e) (Event.updatedAt e)
      (Some (Event.getParticipantCount e, Event.getAvailableSpots e)).
Proof. reflexivity. Qed.

(** Users come back without their password hash, and with both
    timestamps as the ISO text of the file. *)
Lemma user_reloaded (u : User.t) :
  User.rehydrate (User.toJSON u)
  = User.mk (User.id u) (User.email u) None (User.firstName u)
      (User.lastName u) (User.role u)
      (JS.IsoString (JS.instant (User.createdAt u)))
      (JS.IsoString (JS.instant (User.updatedAt u))) (User.isActive u).
Proof. reflexivity. Qed.

Lemma restart_users_not_dates s u :
  u ∈ UserStore.users (restart_users s) ->
  User.password u = None
  /\ JS.is_Date (User.createdAt u) = false
  /\ JS.is_Date (User.updatedAt u) = false.
Proof.
  rewrite restart_users_eq. intros Hin.
  apply list_elem_of_fmap in Hin as (u0 & -> & _).
  by rewrite user_reloaded.
Qed.

(** C8. Saving and reloading the user collection is not the identity: on
    the store holding the one user created by [create], the reloaded user
    has the same id and email but no password hash, and its [createdAt]
    and [updatedAt] are the ISO strings of the file, not dates. *)
Theorem user_reload_drops_password_and_keeps_date_strings :
  UserStore.users john_store = [john_user]
  /\ User.password john_user = Some (salted "Test123!@#")
  /\ JS.is_Date (User.createdAt john_user) = true
  /\ exists u',
       UserStore.users (restart_users john_store) = [u']
       /\ User.id u' = User.id john_user
       /\ User.email u' = User.email john_user
       /\ User.password u' = None
       /\ User.createdAt u' = JS.IsoString 10
       /\ User.updatedAt u' = JS.IsoString 10
       /\ JS.is_Date (User.createdAt u') = false
       /\ u' <> john_user.
Proof.
  repeat split. eexists. repeat split. discriminate.
Qed.

Example event_reload_full_store :
  EventStore.events (restart_events full_store)
  = [Event.mk "ev-1" "Intro webinar" "A first look at the platform"
       1767225600000 "14:30" 60 (Some 2%Z) "org-1" ["alice"; "bob"]
       "scheduled" "general" true None 100 120 (Some (2%Z, Some 0%Z))].
Proof. vm_compute. reflexivity. Qed.

End Persistence.

(** ** middleware/auth.js: authenticateToken *)

Module Auth.

(** The payload [generateToken] signs. *)
Record payload : Type := mk_payload {
  userId : string;
  email : string;
  role : string
}.

(** [jwt.verify(token, JWT.SECRET)]: the decoded payload, or the error it
    throws, by name. The library throws [JsonWebTokenError] for a malformed
    token and for a bad signature, [TokenExpiredError] for an expired one. *)
Inductive verified : Type :=
| Decoded (p : payload)
| TokenExpiredError
| JsonWebTokenError
| OtherError (name : string).

Record response : Type := mk_response {
  status : Z;
  error : string;
  message : string
}.

(** The middleware either calls [next()] with [req.user] set, or answers. *)
Inductive outcome : Type :=
| Next (user : User.t)
| Respond (r : response).

Definition UNAUTHORIZED : Z := 401.
Definition INTERNAL_SERVER_ERROR : Z := 500.
Definition ACCESS_DENIED : string := "Access denied".
Definition INVALID_TOKEN : string := "Invalid token".
Definition TOKEN_EXPIRED : string := "Token expired".

(** [authHeader && authHeader.split(' ')[1]]; [None] is [undefined]. *)
Definition bearer (authHeader : option string) : option string :=
  match authHeader with
  | None => None
  | Some h => if JS.truthy_str h then JS.split " " h !! 1 else Some h
  end.

(** [!token] *)
Definition no_token (token : option string) : bool :=
  match token with
  | None => true
  | Some t => negb (JS.truthy_str t)
  end.

Definition authenticateToken (jwt_verify : string -> verified)
    (userStore : UserStore.t) (authHeader : option string) : outcome :=
  let token := bearer authHeader in
  if no_token token then
    Respond (mk_response UNAUTHORIZED ACCESS_DENIED "No token provided")
  else
    match jwt_verify (default "" token) with
    | Decoded decoded =>
        match UserStore.findById (userId decoded) userStore with
        | Some user =>
            if negb (User.isActive user) then
              Respond (mk_response UNAUTHORIZED ACCESS_DENIED INVALID_TOKEN)
            else Next user
        | None =>
            Respond (mk_response UNAUTHORIZED ACCESS_DENIED INVALID_TOKEN)
        end
    | TokenExpiredError =>
        Respond (mk_response UNAUTHORIZED ACCESS_DENIED TOKEN_EXPIRED)
    | JsonWebTokenError =>
        Respond (mk_response UNAUTHORIZED ACCESS_DENIED INVALID_TOKEN)
    | OtherError _ =>
        Respond (mk_response INTERNAL_SERVER_ERROR "Internal server error"
                   "Token verification failed")
    end.

End Auth.

Section Authentication.

Variable jwt_verify : string -> Auth.verified.

Implicit Types (userStore : UserStore.t) (token : string).

(** The account a payload resolves to is missing or deactivated. *)
Definition dead_account userStore (p : Auth.payload) : Prop :=
  match UserStore.findById (Auth.userId p) userStore with
  | Some user => User.isActive user = false
  | None => True
  end.

Lemma authenticate_dead_account userStore authHeader token p :
  Auth.bearer authHeader = Some token -> token <> "" ->
  jwt_verify token = Auth.Decoded p ->
  dead_account userStore p ->
  Auth.authenticateToken jwt_verify userStore authHeader
  = Auth.Respond (Auth.mk_response 401 "Access denied" "Invalid token").
Proof.
  intros Hb Hne Hv Hdead. unfold Auth.authenticateToken.
  rewrite Hb. simpl. unfold JS.truthy_str.
  rewrite (bool_decide_eq_false_2 _ Hne). simpl. rewrite Hv.
  unfold dead_account in Hdead.
  destruct (UserStore.findById (Auth.userId p) userStore) as [user|]; [|done].
  by rewrite Hdead.
Qed.

Lemma authenticate_invalid_token userStore authHeader token :
  Auth.bearer authHeader = Some token -> token <> "" ->
  jwt_verify token = Auth.JsonWebTokenError ->
  Auth.authenticateToken jwt_verify userStore authHeader
  = Auth.Respond (Auth.mk_response 401 "Access denied" "Invalid token").
Proof.
  intros Hb Hne Hv. unfold Auth.authenticateToken.
  rewrite Hb. simpl. unfold JS.truthy_str.
  rewrite (bool_decide_eq_false_2 _ Hne). simpl. by rewrite Hv.
Qed.

(** C9. A request whose token verifies (valid signature, not expired) but
    whose [userId] resolves to no stored user, or to a user with
    [isActive = false], is answered by [authenticateToken] exactly as a
    request whose token is malformed or badly signed: status 401, error
    ["Access denied"], message ["Invalid token"], and [next()] not called. *)
Theorem dead_account_token_rejected_as_invalid
    userStore authHeader token p authHeader' token' :
  Auth.bearer authHeader = Some token -> token <> "" ->
  jwt_verify token = Auth.Decoded p ->
  dead_account userStore p ->
  Auth.bearer authHeader' = Some token' -> token' <> "" ->
  jwt_verify token' = Auth.JsonWebTokenError ->
  Auth.authenticateToken jwt_verify userStore authHeader
  = Auth.authenticateToken jwt_verify userStore authHeader'
  /\ Auth.authenticateToken jwt_verify userStore authHeader
     = Auth.Respond (Auth.mk_response 401 "Access denied" "Invalid token").
Proof.
  intros Hb Hne Hv Hdead Hb' Hne' Hv'.
  rewrite (authenticate_dead_account userStore authHeader token p) by done.
  by rewrite (authenticate_invalid_token userStore authHeader' token').
Qed.

End Authentication.

(** A verifier that accepts one token, issued for user ["u-1"], and finds
    every other token malformed. *)
Definition one_token_verify (token : string) : Auth.verified :=
  if bool_decide (token = "header.u-1.signature") then
    Auth.Decoded (Auth.mk_payload "u-1" "Test@Example.com" "attendee")
  else Auth.JsonWebTokenError.

(** The account is deleted after the token was issued. *)
Definition deleted_store : UserStore.t :=
  fst (UserStore.delete "u-1" john_store).

(** The account is deactivated ([user.isActive = false]). *)
Definition deactivated_store : UserStore.t :=
  UserStore.mk [User.set_isActive false john_user]
    (UserStore.dataFile john_store).

Example live_account_passes :
  Auth.authenticateToken one_token_verify john_store
    (Some "Bearer header.u-1.signature")
  = Auth.Next john_user.
Proof. reflexivity. Qed.

Example deactivated_account_rejected :
  Auth.authenticateToken one_token_verify deactivated_store
    (Some "Bearer header.u-1.signature")
  = Auth.authenticateToken one_token_verify deactivated_store
      (Some "Bearer invalid-token").
Proof. reflexivity. Qed.

Lemma dead_account_token_witness :
  Auth.authenticateToken one_token_verify deleted_store
    (Some "Bearer header.u-1.signature")
  = Auth.authenticateToken one_token_verify deleted_store
      (Some "Bearer invalid-token")
  /\ Auth.authenticateToken one_token_verify deleted_store
       (Some "Bearer header.u-1.signature")
     = Auth.Respond (Auth.mk_response 401 "Access denied" "Invalid token").
Proof.
  apply (dead_account_token_rejected_as_invalid one_token_verify
           deleted_store
           (Some "Bearer header.u-1.signature") "header.u-1.signature"
           (Auth.mk_payload "u-1" "Test@Example.com" "attendee")
           (Some "Bearer invalid-token") "invalid-token").
  - reflexivity.
  - discriminate.
  - reflexivity.
  - exact I.
  - reflexivity.
  - discriminate.
  - reflexivity.
Defined.

(** * Further properties of the models *)

(** ** Event: registration and its bookkeeping *)

Section EventMethods.

Implicit Types (e : Event.t) (now : Z) (userId : string).

Lemma filter_all {A} (P : A -> Prop) `{!forall x, Decision (P x)} (l : list A) :
  (forall x, x ∈ l -> P x) -> filter P l = l.
Proof.
  induction l as [|x l IH]; intros Hall; [done|].
  rewrite filter_cons_True by (apply Hall, list_elem_of_here).
  f_equal. apply IH. intros y Hy. by apply Hall, list_elem_of_further.
Qed.

(** Deleting the slot of [u] from a list without repetitions leaves the
    others, in order. *)
Lemma delete_slot_filter (l : list string) (u : string) : forall i,
  NoDup l -> l !! i = Some u -> delete i l = filter (fun v => v <> u) l.
Proof.
  induction l as [|x l IH]; intros i Hnd Hi; [done|].
  apply NoDup_cons in Hnd as [Hx Hnd].
  destruct i as [|i]; simpl in Hi.
  - injection Hi as ->. rewrite filter_cons_False by (by intros H).
    symmetry. apply filter_all. intros v Hv ->. by apply Hx.
  - assert (x <> u).
    { intros ->. apply Hx. by eapply list_elem_of_lookup_2. }
    rewrite filter_cons_True by done. simpl. f_equal. by apply IH.
Qed.

Lemma indexOf_Some userId (l : list string) i :
  Event.indexOf userId l = Some i -> l !! i = Some userId.
Proof.
  unfold Event.indexOf. intros H.
  destruct (list_find _ l) as [[j x]|] eqn:E; [|done].
  simpl in H. injection H as ->.
  by apply list_find_Some in E as (Hx & -> & _).
Qed.

Lemma indexOf_present userId (l : list string) :
  userId ∈ l -> is_Some (Event.indexOf userId l).
Proof.
  intros Hin. destruct (Event.indexOf userId l) as [i|] eqn:E; [by exists i|].
  unfold Event.indexOf in E.
  destruct (list_find _ l) as [[j x]|] eqn:F; [done|].
  apply list_find_None in F. rewrite Forall_forall in F.
  by destruct (F userId Hin).
Qed.

Lemma indexOf_appended userId (l : list string) :
  userId ∉ l -> Event.indexOf userId (l ++ [userId]) = Some (length l).
Proof.
  intros Hnin. unfold Event.indexOf.
  rewrite list_find_app_r.
  - simpl. by rewrite decide_True.
  - apply list_find_None, Forall_forall. intros x Hx ->. by apply Hnin.
Qed.

Lemma removeParticipant_present e now userId i :
  Event.indexOf userId (Event.participants e) = Some i ->
  Event.removeParticipant now userId e
  = (Event.set_updatedAt now
       (Event.set_participants (delete i (Event.participants e)) e),
     Return true).
Proof.
  intros Hi. unfold Event.removeParticipant.
  rewrite run_bind. simpl. by rewrite Hi.
Qed.

(** The three ways [addParticipant] can end. *)
Lemma addParticipant_cases e now userId :
  (Event.at_capacity e = true
   /\ Event.addParticipant now userId e = (e, Throw EventFull))
  \/ (Event.at_capacity e = false /\ userId ∈ Event.participants e
      /\ Event.addParticipant now userId e = (e, Throw AlreadyRegistered))
  \/ (Event.at_capacity e = false /\ (userId ∉ Event.participants e)
      /\ Event.addParticipant now userId e
         = (Event.set_updatedAt now
              (Event.set_participants (Event.participants e ++ [userId]) e),
            Return true)).
Proof.
  destruct (Event.at_capacity e) eqn:Hfull.
  - left. split; [done|]. by apply addParticipant_at_capacity.
  - right. destruct (decide (userId ∈ Event.participants e)) as [Hin|Hnin].
    + left. split; [done|]. split; [done|]. by apply addParticipant_duplicate.
    + right. split; [done|]. split; [done|]. by apply addParticipant_admits.
Qed.

(** The two ways [removeParticipant] can end. *)
Lemma removeParticipant_cases e now userId :
  ((userId ∉ Event.participants e)
   /\ Event.removeParticipant now userId e = (e, Throw NotRegistered))
  \/ (exists i,
        Event.participants e !! i = Some userId
        /\ Event.removeParticipant now userId e
           = (Event.set_updatedAt now
                (Event.set_participants (delete i (Event.participants e)) e),
              Return true)).
Proof.
  destruct (decide (userId ∈ Event.participants e)) as [Hin|Hnin].
  - right. destruct (indexOf_present _ _ Hin) as [i Hi].
    exists i. split; [by apply indexOf_Some|].
    by apply removeParticipant_present.
  - left. split; [done|]. by apply removeParticipant_absent.
Qed.

(** X1. No id appears twice in [participants]: if that holds of an event,
    it holds after [addParticipant] and after [removeParticipant], however
    the call ends. *)
Theorem participants_stay_distinct e now userId :
  NoDup (Event.participants e) ->
  NoDup (Event.participants (fst (Event.addParticipant now userId e)))
  /\ NoDup (Event.participants (fst (Event.removeParticipant now userId e))).
Proof.
  intros Hnd. split.
  - destruct (addParticipant_cases e now userId)
      as [[_ ->]|[(_ & _ & ->)|(_ & Hnin & ->)]]; simpl; try done.
    apply NoDup_app. split; [done|]. split; [|apply NoDup_singleton].
    intros x Hx Hx'. apply list_elem_of_singleton in Hx'. by subst.
  - destruct (removeParticipant_cases e now userId)
      as [[_ ->]|(i & _ & ->)]; simpl; [done|].
    by eapply sublist_NoDup; [|apply sublist_delete].
Qed.

Lemma participants_stay_distinct_witness :
  NoDup (Event.participants (fst (Event.addParticipant 130 "bob" full_event)))
  /\ NoDup (Event.participants
             (fst (Event.removeParticipant 130 "bob" full_event))).
Proof.
  apply (participants_stay_distinct full_event 130 "bob").
  apply (bool_decide_unpack _). vm_compute. exact I.
Defined.

Lemma at_capacity_spots e :
  Event.at_capacity e = true
  <-> exists n, Event.getAvailableSpots e = Some n /\ (n <= 0)%Z.
Proof.
  unfold Event.at_capacity, Event.getAvailableSpots.
  destruct (Event.maxParticipants e) as [m|]; simpl.
  - destruct (m =? 0)%Z eqn:Hz; simpl.
    + split; [done|]. by intros (n & ? & _).
    + rewrite Z.leb_le. split.
      * intros Hle. eexists. split; [done|]. lia.
      * intros (n & [= <-] & Hn). lia.
  - split; [done|]. by intros (n & ? & _).
Qed.

(** X2. [addParticipant] throws [EventFull] exactly when
    [getAvailableSpots] reports a number that is zero or negative; with
    [null] spots (no limit, or a limit of 0) it never does. *)
Theorem addParticipant_EventFull_iff_no_spots e now userId :
  snd (Event.addParticipant now userId e) = Throw EventFull
  <-> exists n, Event.getAvailableSpots e = Some n /\ (n <= 0)%Z.
Proof.
  rewrite <- at_capacity_spots.
  destruct (addParticipant_cases e now userId)
    as [[Hc ->]|[(Hc & _ & ->)|(Hc & _ & ->)]]; simpl; rewrite Hc;
    split; done.
Qed.



(** X4. Registering a new participant and unregistering it again gives
    the event back, every field but [updatedAt] as before. *)
Theorem register_then_unregister_restores e now now' userId :
  Event.at_capacity e = false ->
  userId ∉ Event.participants e ->
  Event.removeParticipant now' userId
    (fst (Event.addParticipant now userId e))
  = (Event.set_updatedAt now' e, Return true).
Proof.
  intros Hroom Hnin. rewrite addParticipant_admits by done. simpl.
  rewrite (removeParticipant_present _ now' userId
             (length (Event.participants e)))
    by (by apply indexOf_appended).
  simpl. f_equal.
  replace (delete (length (Event.participants e))
             (Event.participants e ++ [userId]))
    with (Event.participants e).
  - by destruct e.
  - rewrite (delete_middle (Event.participants e) [] userId).
    by rewrite app_nil_r.
Qed.

Lemma register_then_unregister_witness :
  Event.removeParticipant 140 "carol"
    (fst (Event.addParticipant 130 "carol" open_event))
  = (Event.set_updatedAt 140 open_event, Return true).
Proof.
  apply (register_then_unregister_restores open_event 130 140 "carol").
  - reflexivity.
  - apply (bool_decide_unpack _). vm_compute. exact I.
Defined.

(** X5. Unregistering a participant of an event without repeated ids
    returns, removes that id and nothing else, keeps the others in their
    order, and makes the count one less. *)
Theorem removeParticipant_success_effect e now userId :
  NoDup (Event.participants e) ->
  userId ∈ Event.participants e ->
  exists e',
    Event.removeParticipant now userId e = (e', Return true)
    /\ Event.participants e'
       = filter (fun v => v <> userId) (Event.participants e)
    /\ Event.isUserRegistered userId e' = false
    /\ Event.getParticipantCount e' = (Event.getParticipantCount e - 1)%Z
    /\ Event.updatedAt e' = now.
Proof.
  intros Hnd Hin.
  destruct (removeParticipant_cases e now userId)
    as [[Hnin _]|(i & Hi & Hrun)]; [done|].
  eexists. split; [exact Hrun|]. simpl.
  rewrite (delete_slot_filter _ userId i Hnd Hi).
  split; [done|]. split; [|split; [|done]].
  - unfold Event.isUserRegistered. simpl.
    apply bool_decide_eq_false. rewrite list_elem_of_filter. tauto.
  - unfold Event.getParticipantCount. simpl.
    rewrite <- (delete_slot_filter _ userId i Hnd Hi).
    rewrite length_delete by (by exists userId).
    apply lookup_lt_Some in Hi. lia.
Qed.

Lemma removeParticipant_success_witness :
  exists e',
    Event.removeParticipant 130 "alice" full_event = (e', Return true)
    /\ Event.participants e'
       = filter (fun v => v <> "alice") (Event.participants full_event)
    /\ Event.isUserRegistered "alice" e' = false
    /\ Event.getParticipantCount e'
       = (Event.getParticipantCount full_event - 1)%Z
    /\ Event.updatedAt e' = 130%Z.
Proof.
  apply (removeParticipant_success_effect full_event 130 "alice").
  - apply (bool_decide_unpack _). vm_compute. exact I.
  - apply list_elem_of_here.
Defined.

End EventMethods.

(** ** Event: update, clock tests and the snapshot record *)

Module EventView.

(** [isPast()] and [isUpcoming()], with [now] the clock read by
    [new Date()]. *)
Definition isPast (now : Z) (e : Event.t) : bool := (Event.date e <? now)%Z.
Definition isUpcoming (now : Z) (e : Event.t) : bool := (now <? Event.date e)%Z.

(** [toJSONWithUsers()]: the registrant's view, without [organizerId] and
    without the [participants] array. *)
Record jsonWithUsers : Type := mk_jsonWithUsers {
  v_id : string;
  v_title : string;
  v_description : string;
  v_date : Z;
  v_time : string;
  v_duration : Z;
  v_maxParticipants : option Z;
  v_participantCount : Z;
  v_availableSpots : option Z;
  v_status : string;
  v_category : string;
  v_isPublic : bool;
  v_meetingLink : option string;
  v_createdAt : Z;
  v_updatedAt : Z
}.

Definition toJSONWithUsers (e : Event.t) : jsonWithUsers :=
  {| v_id := Event.id e;
     v_title := Event.title e;
     v_description := Event.description e;
     v_date := Event.date e;
     v_time := Event.time e;
     v_duration := Event.duration e;
     v_maxParticipants := Event.maxParticipants e;
     v_participantCount := Event.getParticipantCount e;
     v_availableSpots := Event.getAvailableSpots e;
     v_status := Event.status e;
     v_category := Event.category e;
     v_isPublic := Event.isPublic e;
     v_meetingLink := Event.meetingLink e;
     v_createdAt := Event.createdAt e;
     v_updatedAt := Event.updatedAt e |}.

End EventView.

Section EventUpdate.

Implicit Types (e : Event.t) (now : Z).

(** What [Event.update] does to each field. *)
Lemma Event_update_fields e now (p : Event.patch) :
  exists e',
    Event.update now p e = (e', Return tt)
    /\ Event.title e' = default (Event.title e) (Event.p_title p)
    /\ Event.description e'
       = default (Event.description e) (Event.p_description p)
    /\ Event.date e' = default (Event.date e) (JS.instant <$> Event.p_date p)
    /\ Event.time e' = default (Event.time e) (Event.p_time p)
    /\ Event.duration e' = default (Event.duration e) (Event.p_duration p)
    /\ Event.maxParticipants e'
       = default (Event.maxParticipants e) (Event.p_maxParticipants p)
    /\ Event.status e' = default (Event.status e) (Event.p_status p)
    /\ Event.category e' = default (Event.category e) (Event.p_category p)
    /\ Event.isPublic e' = default (Event.isPublic e) (Event.p_isPublic p)
    /\ Event.meetingLink e'
       = default (Event.meetingLink e) (Event.p_meetingLink p)
    /\ Event.updatedAt e' = now
    /\ Event.id e' = Event.id e
    /\ Event.organizerId e' = Event.organizerId e
    /\ Event.participants e' = Event.participants e
    /\ Event.createdAt e' = Event.createdAt e.
Proof.
  eexists. split; [reflexivity|].
  destruct e, p as [o1 o2 o3 o4 o5 o6 o7 o8 o9 o10].
  destruct o1, o2, o3, o4, o5, o6, o7, o8, o9, o10; repeat split.
Qed.


(** At any instant an event is past, upcoming, or neither, never
    both; it is neither exactly at the instant of its date. *)
Theorem isPast_isUpcoming_exclusive e now :
  (EventView.isPast now e && EventView.isUpcoming now e = false)
  /\ (EventView.isPast now e = false /\ EventView.isUpcoming now e = false
      <-> now = Event.date e).
Proof.
  unfold EventView.isPast, EventView.isUpcoming.
  destruct (Z.ltb_spec (Event.date e) now), (Z.ltb_spec now (Event.date e));
    simpl; split; try done; try lia; split; try done; try lia.
  all: intros; split; try done; lia.
Qed.


End EventUpdate.

(** ** EventStore: what each call does to the collection and the file *)

Section EventStoreCalls.

Implicit Types (e : Event.t) (s : EventStore.t) (now : Z).

(** The file holds the snapshot of the collection. *)
Definition synced s : Prop :=
  EventStore.dataFile s = Some (Event.toJSON <$> EventStore.events s).

(** The store after a write-through of the collection [l]. *)
Definition written (l : list Event.t) : EventStore.t :=
  EventStore.mk l (Some (Event.toJSON <$> l)).

(** A call is settled when it threw and left the store as it was, or
    returned with the file in step with the collection. *)
Definition settled {A} s (res : EventStore.t * completion A) : Prop :=
  match res.2 with
  | Throw _ => res.1 = s
  | Return _ => synced res.1
  end.

Lemma find_slot_None_throw s id :
  EventStore.find_slot id s = None -> EventStore.findById id s = None.
Proof. unfold EventStore.findById. by intros ->. Qed.

(** A method of the event in slot [i] that returns, followed by the
    save: the slot holds the new event and the file is rewritten. *)
Lemma slot_method_return {A} s i e e' (m : M Event.t A) (a : A) :
  EventStore.events s !! i = Some e ->
  m e = (e', Return a) ->
  (at_index EventStore.events EventStore.set_events i m ≫= fun _ =>
   EventStore.saveToFile ≫= fun _ => EventStore.current i e) s
  = (written (<[i := e']> (EventStore.events s)), Return e').
Proof.
  intros Hi Hm. rewrite run_bind. unfold at_index at 1. rewrite Hi, Hm.
  rewrite run_bind. simpl. unfold EventStore.current.
  rewrite run_bind. simpl. unfold written, mret, M_ret, ret.
  rewrite list_lookup_insert_eq; [done|]. by eapply lookup_lt_Some.
Qed.

Lemma slot_method_throw {A B} s i e (m : M Event.t A) (k : M EventStore.t B)
    (err : Error) :
  EventStore.events s !! i = Some e ->
  m e = (e, Throw err) ->
  (at_index EventStore.events EventStore.set_events i m ≫= fun _ => k) s
  = (s, Throw err).
Proof.
  intros Hi Hm. rewrite run_bind.
  by rewrite (at_index_throw_same s i e m err Hi Hm).
Qed.

Lemma registerParticipant_run s eventId i e now userId :
  EventStore.find_slot eventId s = Some (i, e) ->
  EventStore.registerParticipant now eventId userId s
  = match Event.addParticipant now userId e with
    | (e', Return _) =>
        (written (<[i := e']> (EventStore.events s)), Return e')
    | (_, Throw err) => (s, Throw err)
    end.
Proof.
  intros Hslot. destruct (find_slot_lookup _ _ _ _ Hslot) as [Hi _].
  unfold EventStore.registerParticipant. rewrite run_bind. simpl.
  rewrite Hslot.
  destruct (addParticipant_cases e now userId)
    as [[_ H]|[(_ & _ & H)|(_ & _ & H)]]; rewrite H.
  - by apply (slot_method_throw s i e).
  - by apply (slot_method_throw s i e).
  - by apply (slot_method_return s i e _ _ true).
Qed.

Lemma unregisterParticipant_run s eventId i e now userId :
  EventStore.find_slot eventId s = Some (i, e) ->
  EventStore.unregisterParticipant now eventId userId s
  = match Event.removeParticipant now userId e with
    | (e', Return _) =>
        (written (<[i := e']> (EventStore.events s)), Return e')
    | (_, Throw err) => (s, Throw err)
    end.
Proof.
  intros Hslot. destruct (find_slot_lookup _ _ _ _ Hslot) as [Hi _].
  unfold EventStore.unregisterParticipant. rewrite run_bind. simpl.
  rewrite Hslot.
  destruct (removeParticipant_cases e now userId)
    as [[_ H]|(j & _ & H)]; rewrite H.
  - by apply (slot_method_throw s i e).
  - by apply (slot_method_return s i e _ _ true).
Qed.

Lemma update_by_organizer_run s id i e now (p : Event.patch) :
  EventStore.find_slot id s = Some (i, e) ->
  EventStore.update now id p (Event.organizerId e) s
  = (written (<[i := fst (Event.update now p e)]> (EventStore.events s)),
     Return (fst (Event.update now p e))).
Proof.
  intros Hslot. destruct (find_slot_lookup _ _ _ _ Hslot) as [Hi _].
  unfold EventStore.update. rewrite run_bind. simpl.
  rewrite Hslot, run_bind.
  rewrite bool_decide_eq_false_2 by (by intros H; apply H).
  simpl. by apply (slot_method_return s i e _ _ tt).
Qed.

Lemma delete_by_organizer_run s id i e :
  EventStore.find_slot id s = Some (i, e) ->
  EventStore.delete id (Event.organizerId e) s
  = (written (delete i (EventStore.events s)), Return true).
Proof.
  intros Hslot. unfold EventStore.delete. rewrite run_bind. simpl.
  rewrite Hslot, run_bind.
  by rewrite bool_decide_eq_false_2 by (by intros H; apply H).
Qed.

Lemma missing_event_throws s id now userId (p : Event.patch) :
  EventStore.find_slot id s = None ->
  EventStore.update now id p userId s = (s, Throw (NotFound AnEvent))
  /\ EventStore.delete id userId s = (s, Throw (NotFound AnEvent))
  /\ EventStore.registerParticipant now id userId s
     = (s, Throw (NotFound AnEvent))
  /\ EventStore.unregisterParticipant now id userId s
     = (s, Throw (NotFound AnEvent)).
Proof.
  intros Hnone.
  unfold EventStore.update, EventStore.delete, EventStore.registerParticipant,
    EventStore.unregisterParticipant.
  rewrite !run_bind. simpl. by rewrite Hnone.
Qed.


End EventStoreCalls.

(** ** EventStore: lookups after a call *)

Section EventStoreLookups.

Implicit Types (e : Event.t) (s : EventStore.t) (now : Z).

(** Generic facts on [find] over an array that is appended to, updated
    in a slot, or spliced. *)
Lemma list_find_insert_same {A} (P : A -> Prop) `{!forall x, Decision (P x)}
    (l : list A) i x x' :
  list_find P l = Some (i, x) -> P x' ->
  list_find P (<[i := x']> l) = Some (i, x').
Proof.
  intros Hfind Hx'. apply list_find_Some in Hfind as (Hi & Hx & Hbefore).
  apply list_find_Some. split; [|split; [done|]].
  - apply list_lookup_insert_eq. by eapply lookup_lt_Some.
  - intros j y Hj Hlt. apply (Hbefore j y); [|done].
    rewrite list_lookup_insert_ne in Hj by lia. done.
Qed.

Lemma list_find_insert_other {A} (Q : A -> Prop)
    `{!forall x, Decision (Q x)} (l : list A) : forall i x x',
  l !! i = Some x -> ~ Q x -> ~ Q x' ->
  list_find Q (<[i := x']> l) = list_find Q l.
Proof.
  induction l as [|z l IH]; intros i x x' Hi Hx Hx'; [done|].
  destruct i as [|i]; simpl in *.
  - injection Hi as ->. by rewrite !decide_False.
  - destruct (decide (Q z)); [done|]. by rewrite (IH i x x').
Qed.

Lemma list_find_delete_other {A} (Q : A -> Prop)
    `{!forall x, Decision (Q x)} (l : list A) : forall i x,
  l !! i = Some x -> ~ Q x ->
  snd <$> list_find Q (delete i l) = snd <$> list_find Q l.
Proof.
  induction l as [|z l IH]; intros i x Hi Hx; [done|].
  destruct i as [|i]; simpl in *.
  - injection Hi as ->. rewrite decide_False by done.
    by destruct (list_find Q l) as [[??]|].
  - destruct (decide (Q z)); [done|].
    specialize (IH i x Hi Hx).
    destruct (list_find Q (delete i l)) as [[??]|],
             (list_find Q l) as [[??]|]; simpl in *; congruence.
Qed.

Lemma event_methods_keep_id e now userId (p : Event.patch) :
  Event.id (fst (Event.addParticipant now userId e)) = Event.id e
  /\ Event.id (fst (Event.removeParticipant now userId e)) = Event.id e
  /\ Event.id (fst (Event.update now p e)) = Event.id e.
Proof.
  split; [|split].
  - by destruct (addParticipant_cases e now userId)
      as [[_ ->]|[(_ & _ & ->)|(_ & _ & ->)]].
  - by destruct (removeParticipant_cases e now userId)
      as [[_ ->]|(i & _ & ->)].
  - destruct (Event_update_fields e now p) as (e' & -> & H). simpl. tauto.
Qed.




(** X11. A registration that returns changed one slot of the
    collection and nothing else: the event found by the id now has
    [userId] as its last participant, with the same id and organizer; the
    other slots, the count and the lookups of other ids are as before. *)
Theorem registerParticipant_touches_one_event s s' e' eventId now userId :
  EventStore.registerParticipant now eventId userId s = (s', Return e') ->
  exists i e,
    EventStore.events s !! i = Some e
    /\ Event.id e = eventId
    /\ EventStore.events s' = <[i := e']> (EventStore.events s)
    /\ Event.participants e' = Event.participants e ++ [userId]
    /\ Event.id e' = eventId
    /\ Event.organizerId e' = Event.organizerId e
    /\ EventStore.count s' = EventStore.count s
    /\ EventStore.findById eventId s' = Some e'
    /\ (forall id, id <> eventId ->
          EventStore.findById id s' = EventStore.findById id s).
Proof.
  intros Hrun.
  destruct (EventStore.find_slot eventId s) as [[i e]|] eqn:Hslot.
  2: { destruct (missing_event_throws s eventId now userId Event.no_patch
                   Hslot) as (_ & _ & H & _).
       rewrite H in Hrun. discriminate Hrun. }
  destruct (find_slot_lookup _ _ _ _ Hslot) as [Hi Hid].
  rewrite (registerParticipant_run s eventId i e now userId Hslot) in Hrun.
  destruct (addParticipant_cases e now userId)
    as [[_ H]|[(_ & _ & H)|(_ & _ & H)]]; rewrite H in Hrun; try done.
  injection Hrun as <- <-.
  exists i, e. simpl. repeat split; try done.
  - unfold EventStore.count. simpl. by rewrite length_insert.
  - unfold EventStore.findById, EventStore.find_slot. simpl.
    unfold EventStore.find_slot in Hslot.
    by rewrite (list_find_insert_same _ _ i e _ Hslot).
  - intros id Hne. unfold EventStore.findById, EventStore.find_slot. simpl.
    rewrite (list_find_insert_other _ _ i e); [done|done|congruence|].
    simpl. congruence.
Qed.

Lemma registerParticipant_touches_one_witness :
  exists i e,
    EventStore.events open_store !! i = Some e
    /\ Event.id e = "ev-1"
    /\ EventStore.events
         (fst (EventStore.registerParticipant 130 "ev-1" "carol" open_store))
       = <[i := Event.set_updatedAt 130
                  (Event.set_participants ["alice"; "carol"] open_event)]>
           (EventStore.events open_store)
    /\ Event.participants
         (Event.set_updatedAt 130
            (Event.set_participants ["alice"; "carol"] open_event))
       = Event.participants e ++ ["carol"]
    /\ Event.id
         (Event.set_updatedAt 130
            (Event.set_participants ["alice"; "carol"] open_event)) = "ev-1"
    /\ Event.organizerId
         (Event.set_updatedAt 130
            (Event.set_participants ["alice"; "carol"] open_event))
       = Event.organizerId e
    /\ EventStore.count
         (fst (EventStore.registerParticipant 130 "ev-1" "carol" open_store))
       = EventStore.count open_store
    /\ EventStore.findById "ev-1"
         (fst (EventStore.registerParticipant 130 "ev-1" "carol" open_store))
       = Some (Event.set_updatedAt 130
                 (Event.set_participants ["alice"; "carol"] open_event))
    /\ (forall id, id <> "ev-1" ->
          EventStore.findById id
            (fst (EventStore.registerParticipant 130 "ev-1" "carol" open_store))
          = EventStore.findById id open_store).
Proof.
  apply (registerParticipant_touches_one_event open_store _ _ "ev-1" 130 "carol").
  reflexivity.
Defined.

(** The ids of the collection after a call on a slot are the ids before. *)
Lemma ids_after_slot_update (l : list Event.t) i e e' :
  l !! i = Some e -> Event.id e' = Event.id e ->
  Event.id <$> <[i := e']> l = Event.id <$> l.
Proof.
  intros Hi Hid. rewrite list_fmap_insert, Hid.
  apply list_insert_id. by rewrite list_lookup_fmap, Hi.
Qed.

(** X12. Distinct ids are an invariant of the event store: if the ids
    of the collection are distinct, they still are after [update],
    [delete], [registerParticipant], [unregisterParticipant] and [clear],
    however the call ends, and after [create] when [uuidv4] returns an id
    not in use. *)
Theorem event_ids_stay_distinct s now uuid id userId
    (d : Event.data) (p : Event.patch) :
  NoDup (Event.id <$> EventStore.events s) ->
  let distinct (res : EventStore.t) :=
    NoDup (Event.id <$> EventStore.events res) in
  (uuid ∉ (Event.id <$> EventStore.events s) ->
   distinct (fst (EventStore.create uuid now d userId s)))
  /\ distinct (fst (EventStore.update now id p userId s))
  /\ distinct (fst (EventStore.delete id userId s))
  /\ distinct (fst (EventStore.registerParticipant now id userId s))
  /\ distinct (fst (EventStore.unregisterParticipant now id userId s))
  /\ distinct (fst (EventStore.clear s)).
Proof.
  intros Hnd distinct. unfold distinct. split.
  { intros Hfresh. simpl. rewrite fmap_app. apply NoDup_app.
    split; [done|]. split; [|apply NoDup_singleton].
    intros x Hx Hx'. apply list_elem_of_singleton in Hx'. by subst. }
  destruct (EventStore.find_slot id s) as [[i e]|] eqn:Hslot.
  - destruct (find_slot_lookup _ _ _ _ Hslot) as [Hi _].
    destruct (event_methods_keep_id e now userId p) as (Ha & Hr & Hu).
    split; [|split; [|split; [|split; [|apply NoDup_nil_2]]]].
    + destruct (decide (userId = Event.organizerId e)) as [->|Hne].
      * rewrite (update_by_organizer_run s id i e now p Hslot). simpl.
        by rewrite (ids_after_slot_update _ i e).
      * by rewrite (update_by_stranger s id i e now p userId).
    + destruct (decide (userId = Event.organizerId e)) as [->|Hne].
      * rewrite (delete_by_organizer_run s id i e Hslot). simpl.
        rewrite list_fmap_delete.
        by eapply sublist_NoDup; [|apply sublist_delete].
      * by rewrite (delete_by_stranger s id i e userId).
    + rewrite (registerParticipant_run s id i e now userId Hslot).
      destruct (Event.addParticipant now userId e) as [e' [r|err]];
        simpl in *; [|done].
      by rewrite (ids_after_slot_update _ i e).
    + rewrite (unregisterParticipant_run s id i e now userId Hslot).
      destruct (Event.removeParticipant now userId e) as [e' [r|err]];
        simpl in *; [|done].
      by rewrite (ids_after_slot_update _ i e).
  - destruct (missing_event_throws s id now userId p Hslot)
      as (-> & -> & -> & ->).
    repeat split; try done. apply NoDup_nil_2.
Qed.

Lemma event_ids_stay_distinct_witness :
  ("ev-2" ∉ (Event.id <$> EventStore.events full_store) ->
   NoDup (Event.id <$> EventStore.events
            (fst (EventStore.create "ev-2" 200 webinar "org-1" full_store))))
  /\ NoDup (Event.id <$> EventStore.events
              (fst (EventStore.update 200 "ev-1" retitle "org-1" full_store)))
  /\ NoDup (Event.id <$> EventStore.events
              (fst (EventStore.delete "ev-1" "org-1" full_store)))
  /\ NoDup (Event.id <$> EventStore.events
              (fst (EventStore.registerParticipant 200 "ev-1" "org-1"
                      full_store)))
  /\ NoDup (Event.id <$> EventStore.events
              (fst (EventStore.unregisterParticipant 200 "ev-1" "org-1"
                      full_store)))
  /\ NoDup (Event.id <$> EventStore.events (fst (EventStore.clear full_store))).
Proof.
  apply (event_ids_stay_distinct full_store 200 "ev-2" "ev-1" "org-1"
           webinar retitle).
  apply (bool_decide_unpack _). vm_compute. exact I.
Defined.

End EventStoreLookups.

(** ** EventStore: the capacity bound outside [update] *)

Section StoreCapacity.

Implicit Types (e : Event.t) (s : EventStore.t) (now : Z).

(** The bound holds and the capacity test is armed: the limit, when
    there is one, is not 0. *)
Definition capacity_sound e : Prop :=
  within_capacity e /\ Event.maxParticipants e <> Some 0%Z.

Lemma addParticipant_capacity_sound e now userId :
  capacity_sound e -> capacity_sound (fst (Event.addParticipant now userId e)).
Proof.
  intros [Hcap Hnz]. split.
  - by apply addParticipant_within_capacity.
  - by destruct (addParticipant_cases e now userId)
      as [[_ ->]|[(_ & _ & ->)|(_ & _ & ->)]].
Qed.

Lemma removeParticipant_capacity_sound e now userId :
  capacity_sound e ->
  capacity_sound (fst (Event.removeParticipant now userId e)).
Proof.
  intros [Hcap Hnz]. split.
  - by apply removeParticipant_within_capacity.
  - by destruct (removeParticipant_cases e now userId)
      as [[_ ->]|(i & _ & ->)].
Qed.

Lemma new_event_capacity_sound uuid now (d : Event.data) organizerId :
  (forall n, Event.d_maxParticipants d = Some n -> (0 <= n)%Z) ->
  capacity_sound (Event.new uuid now d organizerId).
Proof.
  intros Hpos. unfold capacity_sound, within_capacity. simpl.
  unfold JS.num_or_null, JS.truthy_num.
  destruct (Event.d_maxParticipants d) as [n|]; [|done].
  specialize (Hpos n eq_refl).
  destruct (Z.eqb_spec n 0); simpl; [done|]. split; [lia|congruence].
Qed.

(** X13. Outside [update], the store keeps every event within its
    capacity: if each stored event has at most [maxParticipants]
    participants (and no limit of 0), the same holds after
    [registerParticipant], [unregisterParticipant] and [delete], however
    they end, and after [create] with a limit that is absent or not
    negative. *)
Theorem store_keeps_capacity_outside_update s now uuid id userId
    (d : Event.data) :
  Forall capacity_sound (EventStore.events s) ->
  Forall capacity_sound
    (EventStore.events (fst (EventStore.registerParticipant now id userId s)))
  /\ Forall capacity_sound
       (EventStore.events
          (fst (EventStore.unregisterParticipant now id userId s)))
  /\ Forall capacity_sound
       (EventStore.events (fst (EventStore.delete id userId s)))
  /\ ((forall n, Event.d_maxParticipants d = Some n -> (0 <= n)%Z) ->
      Forall capacity_sound
        (EventStore.events (fst (EventStore.create uuid now d userId s)))).
Proof.
  intros Hall.
  assert (Hcreate :
    (forall n, Event.d_maxParticipants d = Some n -> (0 <= n)%Z) ->
    Forall capacity_sound
      (EventStore.events (fst (EventStore.create uuid now d userId s)))).
  { intros Hpos. simpl. apply Forall_app. split; [done|].
    apply Forall_singleton. by apply new_event_capacity_sound. }
  destruct (EventStore.find_slot id s) as [[i e]|] eqn:Hslot.
  - destruct (find_slot_lookup _ _ _ _ Hslot) as [Hi _].
    assert (He : capacity_sound e)
      by (rewrite Forall_forall in Hall; apply Hall;
          by eapply list_elem_of_lookup_2).
    split; [|split; [|split; [|done]]].
    + rewrite (registerParticipant_run s id i e now userId Hslot).
      pose proof (addParticipant_capacity_sound e now userId He) as H.
      destruct (Event.addParticipant now userId e) as [e' [r|err]];
        simpl in *; [|done].
      by apply Forall_insert.
    + rewrite (unregisterParticipant_run s id i e now userId Hslot).
      pose proof (removeParticipant_capacity_sound e now userId He) as H.
      destruct (Event.removeParticipant now userId e) as [e' [r|err]];
        simpl in *; [|done].
      by apply Forall_insert.
    + destruct (decide (userId = Event.organizerId e)) as [->|Hne].
      * rewrite (delete_by_organizer_run s id i e Hslot). simpl.
        by apply Forall_delete.
      * by rewrite (delete_by_stranger s id i e userId).
  - destruct (missing_event_throws s id now userId Event.no_patch Hslot)
      as (_ & -> & -> & ->).
    by repeat split.
Qed.

Lemma store_keeps_capacity_witness :
  Forall capacity_sound
    (EventStore.events
       (fst (EventStore.registerParticipant 130 "ev-1" "carol" full_store)))
  /\ Forall capacity_sound
       (EventStore.events
          (fst (EventStore.unregisterParticipant 130 "ev-1" "carol" full_store)))
  /\ Forall capacity_sound
       (EventStore.events (fst (EventStore.delete "ev-1" "carol" full_store)))
  /\ ((forall n, Event.d_maxParticipants webinar = Some n -> (0 <= n)%Z) ->
      Forall capacity_sound
        (EventStore.events
           (fst (EventStore.create "ev-2" 130 webinar "carol" full_store)))).
Proof.
  apply (store_keeps_capacity_outside_update full_store 130 "ev-2" "ev-1"
           "carol" webinar).
  apply Forall_singleton. split.
  - vm_compute. discriminate.
  - discriminate.
Defined.

End StoreCapacity.

(** ** EventStore: queries *)

Module EventQuery.

(** The [filters] argument of [findWithFilters]; [None] is an absent
    property. *)
Record filters : Type := mk_filters {
  f_isPublic : option bool;
  f_status : option string;
  f_category : option string;
  f_startDate : option JS.jstime;
  f_endDate : option JS.jstime
}.

Definition no_filters : filters := mk_filters None None None None None.

Definition findByCategory (category : string) (s : EventStore.t)
    : list Event.t :=
  filter (fun event => Event.category event = category) (EventStore.events s).

Definition findAllPublic (s : EventStore.t) : list Event.t :=
  filter (fun event => Event.isPublic event = true) (EventStore.events s).

Definition findAll (s : EventStore.t) : list Event.t := EventStore.events s.

(** [events.sort((a, b) => a.date - b.date)]: the sort is stable, so its
    result is the one of inserting each event, from the last to the first,
    before the first event that is not earlier. *)
Fixpoint insert_by_date (x : Event.t) (l : list Event.t) : list Event.t :=
  match l with
  | [] => [x]
  | y :: l' =>
      if (Event.date x <=? Event.date y)%Z then x :: y :: l'
      else y :: insert_by_date x l'
  end.

Definition sort_by_date (l : list Event.t) : list Event.t :=
  foldr insert_by_date [] l.

(** [if (filters.f) events = events.filter(...)], one step per filter. *)
Definition by_isPublic (flt : filters) (events : list Event.t) :=
  match f_isPublic flt with
  | Some b => filter (fun event => Event.isPublic event = b) events
  | None => events
  end.

Definition by_status (flt : filters) (events : list Event.t) :=
  match f_status flt with
  | Some st =>
      if JS.truthy_str st then
        filter (fun event => Event.status event = st) events
      else events
  | None => events
  end.

Definition by_category (flt : filters) (events : list Event.t) :=
  match f_category flt with
  | Some c =>
      if JS.truthy_str c then
        filter (fun event => Event.category event = c) events
      else events
  | None => events
  end.

Definition by_startDate (flt : filters) (events : list Event.t) :=
  match f_startDate flt with
  | Some d =>
      let startDate := JS.instant (JS.new_Date d) in
      filter (fun event => (startDate <= Event.date event)%Z) events
  | None => events
  end.

Definition by_endDate (flt : filters) (events : list Event.t) :=
  match f_endDate flt with
  | Some d =>
      let endDate := JS.instant (JS.new_Date d) in
      filter (fun event => (Event.date event <= endDate)%Z) events
  | None => events
  end.

Definition findWithFilters (flt : filters) (s : EventStore.t)
    : list Event.t :=
  sort_by_date
    (by_endDate flt
       (by_startDate flt
          (by_category flt
             (by_status flt
                (by_isPublic flt (EventStore.events s)))))).

End EventQuery.

Section Queries.

Implicit Types (e : Event.t) (s : EventStore.t) (l : list Event.t).

Definition earlier_or_same e1 e2 : Prop := (Event.date e1 <= Event.date e2)%Z.

(** What it is for an event to pass every filter that is given. *)
Definition passes (flt : EventQuery.filters) e : Prop :=
  (forall b, EventQuery.f_isPublic flt = Some b -> Event.isPublic e = b)
  /\ (forall st, EventQuery.f_status flt = Some st -> st <> "" ->
        Event.status e = st)
  /\ (forall c, EventQuery.f_category flt = Some c -> c <> "" ->
        Event.category e = c)
  /\ (forall d, EventQuery.f_startDate flt = Some d ->
        (JS.instant d <= Event.date e)%Z)
  /\ (forall d, EventQuery.f_endDate flt = Some d ->
        (Event.date e <= JS.instant d)%Z).

Lemma insert_by_date_perm e l : EventQuery.insert_by_date e l ≡ₚ e :: l.
Proof.
  induction l as [|y l IH]; simpl; [done|].
  destruct (Event.date e <=? Event.date y)%Z; [done|].
  rewrite IH. apply Permutation_swap.
Qed.

Lemma sort_by_date_perm l : EventQuery.sort_by_date l ≡ₚ l.
Proof.
  induction l as [|x l IH]; simpl; [done|].
  by rewrite insert_by_date_perm, IH.
Qed.

Lemma insert_by_date_sorted e l :
  StronglySorted earlier_or_same l ->
  StronglySorted earlier_or_same (EventQuery.insert_by_date e l).
Proof.
  induction 1 as [|y l Hs IH Hall]; simpl.
  - repeat constructor.
  - destruct (Z.leb_spec (Event.date e) (Event.date y)).
    + constructor; [by constructor|].
      constructor; [done|].
      eapply Forall_impl; [exact Hall|].
      unfold earlier_or_same. intros z Hz. lia.
    + constructor; [done|].
      rewrite insert_by_date_perm. constructor; [|done].
      unfold earlier_or_same. lia.
Qed.

Lemma sort_by_date_sorted l :
  StronglySorted earlier_or_same (EventQuery.sort_by_date l).
Proof.
  induction l as [|x l IH]; simpl; [constructor|].
  by apply insert_by_date_sorted.
Qed.

Lemma insert_by_date_same_day (d : Z) e l :
  filter (fun x => Event.date x = d) (EventQuery.insert_by_date e l)
  = filter (fun x => Event.date x = d) (e :: l).
Proof.
  induction l as [|y l IH]; simpl; [done|].
  destruct (Z.leb_spec (Event.date e) (Event.date y)); [done|].
  rewrite (filter_cons _ y), IH, !(filter_cons _ e), (filter_cons _ y).
  destruct (decide (Event.date y = d)), (decide (Event.date e = d));
    try done; lia.
Qed.

Lemma sort_by_date_same_day (d : Z) l :
  filter (fun x => Event.date x = d) (EventQuery.sort_by_date l)
  = filter (fun x => Event.date x = d) l.
Proof.
  induction l as [|x l IH]; simpl; [done|].
  by rewrite insert_by_date_same_day, !(filter_cons _ x), IH.
Qed.

Lemma by_isPublic_elem (flt : EventQuery.filters) e l :
  e ∈ EventQuery.by_isPublic flt l
  <-> e ∈ l /\ (forall b, EventQuery.f_isPublic flt = Some b ->
                   Event.isPublic e = b).
Proof.
  unfold EventQuery.by_isPublic.
  destruct (EventQuery.f_isPublic flt) as [b|].
  - rewrite list_elem_of_filter. split.
    + intros [Hb Hin]. split; [done|]. by intros b' [= <-].
    + intros [Hin Hb]. split; [by apply Hb|done].
  - split; [|tauto]. intros Hin. split; [done|]. by intros b.
Qed.

Lemma by_status_elem (flt : EventQuery.filters) e l :
  e ∈ EventQuery.by_status flt l
  <-> e ∈ l /\ (forall st, EventQuery.f_status flt = Some st -> st <> "" ->
                   Event.status e = st).
Proof.
  unfold EventQuery.by_status, JS.truthy_str.
  destruct (EventQuery.f_status flt) as [st|].
  - destruct (decide (st = "")) as [->|Hne].
    + simpl. split; [|tauto]. intros Hin. split; [done|].
      by intros st' [= <-].
    + rewrite (bool_decide_eq_false_2 _ Hne). simpl.
      rewrite list_elem_of_filter. split.
      * intros [Hst Hin]. split; [done|]. by intros st' [= <-].
      * intros [Hin Hst]. split; [by apply Hst|done].
  - split; [|tauto]. intros Hin. split; [done|]. by intros st.
Qed.

Lemma by_category_elem (flt : EventQuery.filters) e l :
  e ∈ EventQuery.by_category flt l
  <-> e ∈ l /\ (forall c, EventQuery.f_category flt = Some c -> c <> "" ->
                   Event.category e = c).
Proof.
  unfold EventQuery.by_category, JS.truthy_str.
  destruct (EventQuery.f_category flt) as [c|].
  - destruct (decide (c = "")) as [->|Hne].
    + simpl. split; [|tauto]. intros Hin. split; [done|].
      by intros c' [= <-].
    + rewrite (bool_decide_eq_false_2 _ Hne). simpl.
      rewrite list_elem_of_filter. split.
      * intros [Hc Hin]. split; [done|]. by intros c' [= <-].
      * intros [Hin Hc]. split; [by apply Hc|done].
  - split; [|tauto]. intros Hin. split; [done|]. by intros c.
Qed.

Lemma by_startDate_elem (flt : EventQuery.filters) e l :
  e ∈ EventQuery.by_startDate flt l
  <-> e ∈ l /\ (forall d, EventQuery.f_startDate flt = Some d ->
                   (JS.instant d <= Event.date e)%Z).
Proof.
  unfold EventQuery.by_startDate.
  destruct (EventQuery.f_startDate flt) as [d|].
  - rewrite list_elem_of_filter. simpl. split.
    + intros [Hd Hin]. split; [done|]. by intros d' [= <-].
    + intros [Hin Hd]. split; [by apply Hd|done].
  - split; [|tauto]. intros Hin. split; [done|]. by intros d.
Qed.

Lemma by_endDate_elem (flt : EventQuery.filters) e l :
  e ∈ EventQuery.by_endDate flt l
  <-> e ∈ l /\ (forall d, EventQuery.f_endDate flt = Some d ->
                   (Event.date e <= JS.instant d)%Z).
Proof.
  unfold EventQuery.by_endDate.
  destruct (EventQuery.f_endDate flt) as [d|].
  - rewrite list_elem_of_filter. simpl. split.
    + intros [Hd Hin]. split; [done|]. by intros d' [= <-].
    + intros [Hin Hd]. split; [by apply Hd|done].
  - split; [|tauto]. intros Hin. split; [done|]. by intros d.
Qed.

Lemma filters_pass flt e l :
  e ∈ EventQuery.by_endDate flt
        (EventQuery.by_startDate flt
           (EventQuery.by_category flt
              (EventQuery.by_status flt (EventQuery.by_isPublic flt l))))
  <-> e ∈ l /\ passes flt e.
Proof.
  rewrite by_endDate_elem, by_startDate_elem, by_category_elem,
    by_status_elem, by_isPublic_elem.
  unfold passes. tauto.
Qed.

(** X14. [findWithFilters] returns the stored events that pass every
    filter given (an absent filter, or an empty status or category,
    filters nothing), each as often as it is stored, in ascending order
    of date. *)
Theorem findWithFilters_sorted_and_exact (flt : EventQuery.filters) s :
  StronglySorted earlier_or_same (EventQuery.findWithFilters flt s)
  /\ (forall e, e ∈ EventQuery.findWithFilters flt s
               <-> e ∈ EventStore.events s /\ passes flt e)
  /\ length (EventQuery.findWithFilters flt s) <= EventStore.count s
  /\ EventQuery.findWithFilters EventQuery.no_filters s ≡ₚ EventStore.events s.
Proof.
  unfold EventQuery.findWithFilters. split; [apply sort_by_date_sorted|].
  split; [|split].
  - intros e. rewrite sort_by_date_perm. apply filters_pass.
  - rewrite sort_by_date_perm. unfold EventStore.count.
    unfold EventQuery.by_endDate, EventQuery.by_startDate,
      EventQuery.by_category, EventQuery.by_status, EventQuery.by_isPublic.
    repeat (match goal with
            | |- context [match ?o with Some _ => _ | None => _ end] =>
                destruct o
            | |- context [if ?b then _ else _] => destruct b
            | |- length (filter ?P ?l) <= _ =>
                etrans; [apply length_filter|]
            end); done.
  - apply sort_by_date_perm.
Qed.

(** X15. The sort of [findWithFilters] is stable: the returned events
    of any one date stand in the order they have in the store. *)
Theorem findWithFilters_keeps_store_order (flt : EventQuery.filters) s
    (d : Z) :
  filter (fun e => Event.date e = d) (EventQuery.findWithFilters flt s)
  = filter (fun e => Event.date e = d)
      (EventQuery.by_endDate flt
         (EventQuery.by_startDate flt
            (EventQuery.by_category flt
               (EventQuery.by_status flt
                  (EventQuery.by_isPublic flt (EventStore.events s))))))
  /\ filter (fun e => Event.date e = d)
       (EventQuery.findWithFilters EventQuery.no_filters s)
     = filter (fun e => Event.date e = d) (EventStore.events s).
Proof.
  unfold EventQuery.findWithFilters. by rewrite !sort_by_date_same_day.
Qed.

End Queries.

(** ** EventStore: update by the organizer, and restarts *)

Section EventStoreUpdate.

Implicit Types (e : Event.t) (s : EventStore.t) (now : Z).



(** An event read back from its snapshot record writes the same record. *)
Lemma event_snapshot_stable e :
  Event.toJSON (Event.rehydrate (Event.toJSON e)) = Event.toJSON e.
Proof. reflexivity. Qed.

(** X17. A restart of the event store is invisible to its callers: the
    reloaded events write the same snapshot, a second restart changes
    nothing more, and a reloaded event answers [addParticipant] and
    [removeParticipant] as the original does, with the same participants
    afterwards. *)
Theorem event_restart_is_invisible s :
  Event.toJSON <$> EventStore.events (restart_events s)
  = Event.toJSON <$> EventStore.events s
  /\ restart_events (restart_events s) = restart_events s
  /\ forall e now userId,
       let e' := Event.rehydrate (Event.toJSON e) in
       snd (Event.addParticipant now userId e')
       = snd (Event.addParticipant now userId e)
       /\ Event.participants (fst (Event.addParticipant now userId e'))
          = Event.participants (fst (Event.addParticipant now userId e))
       /\ snd (Event.removeParticipant now userId e')
          = snd (Event.removeParticipant now userId e)
       /\ Event.participants (fst (Event.removeParticipant now userId e'))
          = Event.participants (fst (Event.removeParticipant now userId e)).
Proof.
  assert (Hsnap : Event.toJSON <$> EventStore.events (restart_events s)
                  = Event.toJSON <$> EventStore.events s).
  { rewrite restart_events_eq, <- list_fmap_compose.
    apply list_fmap_ext. intros i e _. apply event_snapshot_stable. }
  split; [done|]. split.
  - assert (Hsame : forall s1 s2,
              Event.toJSON <$> EventStore.events s1
              = Event.toJSON <$> EventStore.events s2 ->
              restart_events s1 = restart_events s2).
    { intros s1 s2 H12. unfold restart_events, EventStore.new. simpl.
      by rewrite H12. }
    by apply Hsame.
  - intros e now userId e'.
    assert (Hcap : Event.at_capacity e' = Event.at_capacity e) by done.
    assert (Hps : Event.participants e' = Event.participants e) by done.
    split; [|split; [|split]].
    + destruct (addParticipant_cases e now userId)
        as [[Hc ->]|[(Hc & Hin & ->)|(Hc & Hin & ->)]].
      * by rewrite addParticipant_at_capacity by (by rewrite Hcap).
      * by rewrite addParticipant_duplicate by (by rewrite ?Hcap, ?Hps).
      * by rewrite addParticipant_admits by (by rewrite ?Hcap, ?Hps).
    + destruct (addParticipant_cases e now userId)
        as [[Hc ->]|[(Hc & Hin & ->)|(Hc & Hin & ->)]].
      * by rewrite addParticipant_at_capacity by (by rewrite Hcap).
      * by rewrite addParticipant_duplicate by (by rewrite ?Hcap, ?Hps).
      * by rewrite addParticipant_admits by (by rewrite ?Hcap, ?Hps).
    + destruct (removeParticipant_cases e now userId)
        as [[Hnin ->]|(i & Hi & ->)].
      * by rewrite removeParticipant_absent by (by rewrite Hps).
      * destruct (removeParticipant_cases e' now userId)
          as [[Hnin _]|(j & Hj & ->)]; [|done].
        exfalso. apply Hnin. rewrite Hps. by eapply list_elem_of_lookup_2.
    + unfold Event.removeParticipant. rewrite !run_bind. simpl.
      by destruct (Event.indexOf userId (Event.participants e)).
Qed.

End EventStoreUpdate.

(** ** User and UserStore: what each call does *)

Section UserStoreCalls.

Variable bcrypt_hash : string -> string.

Implicit Types (u : User.t) (s : UserStore.t) (now : Z) (p : User.patch).

Definition users_synced s : Prop :=
  UserStore.dataFile s = Some (User.toJSON <$> UserStore.users s).

Definition users_written (l : list User.t) : UserStore.t :=
  UserStore.mk l (Some (User.toJSON <$> l)).

Definition users_settled {A} s (res : UserStore.t * completion A) : Prop :=
  match res.2 with
  | Throw _ => res.1 = s
  | Return _ => users_synced res.1
  end.

(** What [User.update] does to each field. *)
Lemma User_update_fields u now p :
  exists u',
    User.update now p u = (u', Return tt)
    /\ User.firstName u' = default (User.firstName u) (User.p_firstName p)
    /\ User.lastName u' = default (User.lastName u) (User.p_lastName p)
    /\ User.email u' = default (User.email u) (User.p_email p)
    /\ User.updatedAt u' = JS.DateObj now
    /\ User.id u' = User.id u
    /\ User.role u' = User.role u
    /\ User.password u' = User.password u
    /\ User.createdAt u' = User.createdAt u
    /\ User.isActive u' = User.isActive u.
Proof.
  eexists. split; [reflexivity|].
  destruct u, p as [o1 o2 o3]. destruct o1, o2, o3; repeat split.
Qed.


Lemma user_update_run s id i u now p :
  UserStore.find_slot id s = Some (i, u) ->
  UserStore.check_email p u s = (s, Return tt) ->
  UserStore.update now id p s
  = (users_written (<[i := fst (User.update now p u)]> (UserStore.users s)),
     Return (fst (User.update now p u))).
Proof.
  intros Hslot Hcheck.
  destruct (user_slot_lookup _ _ _ _ Hslot) as [Hi _].
  destruct (User_update_fields u now p) as (u' & Hu & _).
  rewrite Hu. cbn [fst].
  unfold UserStore.update. rewrite run_bind. simpl.
  rewrite Hslot, run_bind, Hcheck, run_bind.
  unfold at_index at 1. rewrite Hi, Hu. simpl.
  unfold UserStore.current, mbind, M_bind, bind, get, users_written. simpl.
  unfold mret, M_ret, ret.
  rewrite list_lookup_insert_eq; [done|]. by eapply lookup_lt_Some.
Qed.

Lemma user_update_throw s id i u now p err :
  UserStore.find_slot id s = Some (i, u) ->
  UserStore.check_email p u s = (s, Throw err) ->
  UserStore.update now id p s = (s, Throw err).
Proof.
  intros Hslot Hcheck. unfold UserStore.update. rewrite run_bind. simpl.
  by rewrite Hslot, run_bind, Hcheck.
Qed.

(** The guard of [update] never changes the store, and throws nothing
    but [DuplicateKey]. *)
Lemma check_email_cases s u p :
  UserStore.check_email p u s = (s, Return tt)
  \/ UserStore.check_email p u s = (s, Throw DuplicateKey).
Proof.
  destruct (User.p_email p) as [e|] eqn:Hp.
  - rewrite (check_email_run s u e p Hp).
    destruct (_ && _ && _); auto.
  - left. unfold UserStore.check_email. rewrite run_bind. simpl.
    by rewrite Hp.
Qed.

Lemma user_delete_run s id i u :
  UserStore.find_slot id s = Some (i, u) ->
  UserStore.delete id s
  = (users_written (delete i (UserStore.users s)), Return true).
Proof.
  intros Hslot. unfold UserStore.delete. rewrite run_bind. simpl.
  by rewrite Hslot.
Qed.

Lemma missing_user_throws s id now p :
  UserStore.find_slot id s = None ->
  UserStore.update now id p s = (s, Throw (NotFound AUser))
  /\ UserStore.delete id s = (s, Throw (NotFound AUser)).
Proof.
  intros Hnone. unfold UserStore.update, UserStore.delete.
  rewrite !run_bind. simpl. by rewrite Hnone.
Qed.


Lemma NoDup_insert_fresh {K} (l : list K) : forall i (k : K),
  NoDup l -> k ∉ l -> NoDup (<[i := k]> l).
Proof.
  induction l as [|x l IH]; intros i k Hnd Hk; [done|].
  apply NoDup_cons in Hnd as [Hx Hnd].
  apply not_elem_of_cons in Hk as [Hkx Hk].
  destruct i as [|i]; simpl.
  - by apply NoDup_cons.
  - apply NoDup_cons. split; [|by apply IH].
    intros Hin. apply list_elem_of_lookup in Hin as [j Hj].
    destruct (decide (i = j)) as [->|Hij].
    + destruct (decide (j < length l)) as [Hlt|Hge].
      * rewrite list_lookup_insert_eq in Hj by done. congruence.
      * rewrite list_insert_ge in Hj by lia.
        apply Hx. by eapply list_elem_of_lookup_2.
    + rewrite list_lookup_insert_ne in Hj by done.
      apply Hx. by eapply list_elem_of_lookup_2.
Qed.


End UserStoreCalls.


(** ** UserStore: deletion and restarts *)

Section UserStoreDelete.

Variable bcrypt_hash : string -> string.

Implicit Types (u : User.t) (s : UserStore.t).

Lemma user_find_slot_stored (l : list User.t) u :
  u ∈ l ->
  NoDup (User.id <$> l) ->
  exists i, list_find (fun user => User.id user = User.id u) l = Some (i, u).
Proof. apply (list_find_key User.id). Qed.


(** A user read back from its snapshot record writes the same record. *)
Lemma user_snapshot_stable u :
  User.toJSON (User.rehydrate (User.toJSON u)) = User.toJSON u.
Proof. reflexivity. Qed.

(** X22. After a restart the user store still answers its lookups:
    [findById] and [findByEmail] find the reloaded form of the user they
    found before (same id, email, names, role and [isActive]); the reloaded
    users write the same snapshot, and a second restart changes nothing
    more. *)
Theorem user_restart_keeps_lookups s (id email : string) :
  let reloaded u := User.rehydrate (User.toJSON u) in
  UserStore.findById id (restart_users s)
  = reloaded <$> UserStore.findById id s
  /\ UserStore.findByEmail email (restart_users s)
     = reloaded <$> UserStore.findByEmail email s
  /\ User.toJSON <$> UserStore.users (restart_users s)
     = User.toJSON <$> UserStore.users s
  /\ restart_users (restart_users s) = restart_users s.
Proof.
  intros reloaded.
  assert (Hsnap : User.toJSON <$> UserStore.users (restart_users s)
                  = User.toJSON <$> UserStore.users s).
  { rewrite restart_users_eq, <- list_fmap_compose.
    apply list_fmap_ext. intros i u _. apply user_snapshot_stable. }
  split; [|split; [|split; [done|]]].
  - unfold UserStore.findById, UserStore.find_slot.
    rewrite restart_users_eq, list_find_fmap.
    by destruct (list_find _ (UserStore.users s)) as [[??]|].
  - unfold UserStore.findByEmail, UserStore.find_email.
    rewrite restart_users_eq, list_find_fmap.
    by destruct (list_find _ (UserStore.users s)) as [[??]|].
  - assert (Hsame : forall s1 s2,
              User.toJSON <$> UserStore.users s1
              = User.toJSON <$> UserStore.users s2 ->
              restart_users s1 = restart_users s2).
    { intros s1 s2 H12. unfold restart_users, UserStore.new. simpl.
      by rewrite H12. }
    by apply Hsame.
Qed.

End UserStoreDelete.


(** ** middleware/auth.js: the other middlewares *)

Module Middleware.

(** [JWT.SECRET] of [config/constants.js] and the secret [optionalAuth]
    reads for itself, both from [process.env.JWT_SECRET] ([None]: not
    set). *)
Definition JWT_SECRET (env : option string) : string :=
  JS.str_or env "fallback-secret-key-change-in-production".

Definition optionalAuth_secret (env : option string) : string :=
  JS.str_or env "fallback-secret-key".

(** [authenticateToken] with [jwt.verify] taking the token and the
    secret. *)
Definition authenticateToken (jwt_verify : string -> string -> Auth.verified)
    (env : option string) (userStore : UserStore.t)
    (authHeader : option string) : Auth.outcome :=
  Auth.authenticateToken (fun token => jwt_verify token (JWT_SECRET env))
    userStore authHeader.

(** [optionalAuth] always calls [next()]; the result is [req.user], with
    [None] for [null]. *)
Definition optionalAuth (jwt_verify : string -> string -> Auth.verified)
    (env : option string) (userStore : UserStore.t)
    (authHeader : option string) : option User.t :=
  let token := Auth.bearer authHeader in
  if Auth.no_token token then None
  else
    match jwt_verify (default "" token) (optionalAuth_secret env) with
    | Auth.Decoded decoded =>
        match UserStore.findById (Auth.userId decoded) userStore with
        | Some user => if User.isActive user then Some user else None
        | None => None
        end
    | _ => None
    end.

End Middleware.

Section Tokens.

Implicit Types (userStore : UserStore.t) (authHeader : option string).

(** X23. [authenticateToken] lets a request through, as [user], exactly
    when the header carries a non-empty token that [jwt.verify] decodes
    and whose [userId] finds [user], active, in the store; every other
    request is answered with status 401, or 500 when [jwt.verify] threw
    something other than its two token errors. *)
Theorem authenticate_passes_iff (jwt_verify : string -> Auth.verified)
    userStore authHeader :
  (forall user,
     Auth.authenticateToken jwt_verify userStore authHeader = Auth.Next user
     <-> exists token p,
           Auth.bearer authHeader = Some token /\ token <> ""
           /\ jwt_verify token = Auth.Decoded p
           /\ UserStore.findById (Auth.userId p) userStore = Some user
           /\ User.isActive user = true)
  /\ (forall r,
        Auth.authenticateToken jwt_verify userStore authHeader
        = Auth.Respond r ->
        Auth.status r = 401%Z
        \/ (Auth.status r = 500%Z
            /\ exists token name,
                 Auth.bearer authHeader = Some token
                 /\ jwt_verify token = Auth.OtherError name)).
Proof.
  unfold Auth.authenticateToken, Auth.no_token, JS.truthy_str.
  destruct (Auth.bearer authHeader) as [token|]; simpl.
  2: { split.
       - intros user. split; [done|]. by intros (t & p & ? & _).
       - intros r [= <-]. by left. }
  destruct (decide (token = "")) as [->|Hne].
  { simpl. split.
    - intros user. split; [done|]. by intros (t & p & [= <-] & ? & _).
    - intros r [= <-]. by left. }
  rewrite (bool_decide_eq_false_2 _ Hne). simpl.
  destruct (jwt_verify token) as [p| | |name] eqn:Hv.
  - destruct (UserStore.findById (Auth.userId p) userStore) as [u|] eqn:Hf.
    + destruct (User.isActive u) eqn:Ha; simpl; split.
      * intros user. split.
        -- intros [= <-]. by exists token, p.
        -- intros (t & p' & [= <-] & _ & Hv' & Hf' & _). congruence.
      * done.
      * intros user. split; [done|].
        intros (t & p' & [= <-] & _ & Hv' & Hf' & Ha'). congruence.
      * intros r [= <-]. by left.
    + split.
      * intros user. split; [done|].
        intros (t & p' & [= <-] & _ & Hv' & Hf' & _). congruence.
      * intros r [= <-]. by left.
  - split.
    + intros user. split; [done|].
      intros (t & p' & [= <-] & _ & Hv' & _). congruence.
    + intros r [= <-]. by left.
  - split.
    + intros user. split; [done|].
      intros (t & p' & [= <-] & _ & Hv' & _). congruence.
    + intros r [= <-]. by left.
  - split.
    + intros user. split; [done|].
      intros (t & p' & [= <-] & _ & Hv' & _). congruence.
    + intros r [= <-]. right. split; [done|]. by exists token, name.
Qed.

(** X24. With [JWT_SECRET] set in the environment, [optionalAuth] and
    [authenticateToken] agree on who the caller is: [optionalAuth] sets
    [req.user] to [user] exactly when [authenticateToken] lets the
    request through as [user]. *)
Theorem optionalAuth_agrees_when_secret_set
    (jwt_verify : string -> string -> Auth.verified) (secret : string)
    userStore authHeader user :
  secret <> "" ->
  Middleware.optionalAuth jwt_verify (Some secret) userStore authHeader
  = Some user
  <-> Middleware.authenticateToken jwt_verify (Some secret) userStore
        authHeader = Auth.Next user.
Proof.
  intros Hne.
  unfold Middleware.optionalAuth, Middleware.authenticateToken,
    Auth.authenticateToken, Middleware.optionalAuth_secret,
    Middleware.JWT_SECRET, JS.str_or, JS.truthy_str.
  rewrite (bool_decide_eq_false_2 _ Hne). simpl.
  destruct (Auth.no_token (Auth.bearer authHeader)); [done|].
  destruct (jwt_verify _ secret) as [p| | |name]; try done.
  destruct (UserStore.findById (Auth.userId p) userStore) as [u|]; [|done].
  destruct (User.isActive u); simpl; [|done].
  split; congruence.
Qed.

(** X25. Without [JWT_SECRET] in the environment the two middlewares
    verify against different fallback secrets: a token that verifies
    under [JWT.SECRET] (the secret tokens are signed with) but not under
    the fallback of [optionalAuth] passes [authenticateToken] as its
    user, while [optionalAuth] treats the same request as anonymous. *)
Theorem optionalAuth_fallback_secret_differs
    (jwt_verify : string -> string -> Auth.verified)
    userStore authHeader token p user :
  Auth.bearer authHeader = Some token -> token <> "" ->
  jwt_verify token "fallback-secret-key-change-in-production"
  = Auth.Decoded p ->
  jwt_verify token "fallback-secret-key" = Auth.JsonWebTokenError ->
  UserStore.findById (Auth.userId p) userStore = Some user ->
  User.isActive user = true ->
  Middleware.authenticateToken jwt_verify None userStore authHeader
  = Auth.Next user
  /\ Middleware.optionalAuth jwt_verify None userStore authHeader = None.
Proof.
  intros Hb Hne Hgood Hbad Hfind Hactive.
  unfold Middleware.optionalAuth, Middleware.authenticateToken,
    Auth.authenticateToken, Auth.no_token, JS.truthy_str.
  rewrite Hb. simpl. rewrite (bool_decide_eq_false_2 _ Hne). simpl.
  by rewrite Hgood, Hbad, Hfind, Hactive.
Qed.

End Tokens.

(** A verifier that checks the secret the token was signed with. *)
Definition signed_verify (token secret : string) : Auth.verified :=
  if bool_decide (token = "header.u-1.signature") then
    if bool_decide (secret = "fallback-secret-key-change-in-production")
       || bool_decide (secret = "s3cret")
    then Auth.Decoded (Auth.mk_payload "u-1" "Test@Example.com" "attendee")
    else Auth.JsonWebTokenError
  else Auth.JsonWebTokenError.

Lemma optionalAuth_agrees_witness :
  Middleware.optionalAuth signed_verify (Some "s3cret") john_store
    (Some "Bearer header.u-1.signature") = Some john_user
  <-> Middleware.authenticateToken signed_verify (Some "s3cret") john_store
        (Some "Bearer header.u-1.signature") = Auth.Next john_user.
Proof.
  apply (optionalAuth_agrees_when_secret_set signed_verify "s3cret"
           john_store (Some "Bearer header.u-1.signature") john_user).
  discriminate.
Defined.

Lemma optionalAuth_fallback_witness :
  Middleware.authenticateToken signed_verify None john_store
    (Some "Bearer header.u-1.signature") = Auth.Next john_user
  /\ Middleware.optionalAuth signed_verify None john_store
       (Some "Bearer header.u-1.signature") = None.
Proof.
  apply (optionalAuth_fallback_secret_differs signed_verify john_store
           (Some "Bearer header.u-1.signature") "header.u-1.signature"
           (Auth.mk_payload "u-1" "Test@Example.com" "attendee") john_user).
  - reflexivity.
  - discriminate.
  - reflexivity.
  - reflexivity.
  - reflexivity.
  - reflexivity.
Defined.

(** ** middleware/auth.js: reading the token off the header *)

Section Bearer.

Fixpoint no_space (s : string) : Prop :=
  match s with
  | EmptyString => True
  | String c s' => c <> " "%char /\ no_space s'
  end.

Lemma split_one_word (t : string) :
  no_space t -> JS.split " " t = [t].
Proof.
  induction t as [|c t IH]; simpl; [done|].
  intros [Hc Ht]. rewrite (bool_decide_eq_false_2 _ Hc).
  by rewrite (IH Ht).
Qed.

Lemma split_first_word (w rest : string) :
  no_space w ->
  JS.split " " (w +:+ String " " rest) = w :: JS.split " " rest.
Proof.
  induction w as [|c w IH]; simpl; [done|].
  intros [Hc Hw]. rewrite (bool_decide_eq_false_2 _ Hc).
  by rewrite (IH Hw).
Qed.

Lemma bearer_after_first_word (w rest : string) :
  no_space w ->
  Auth.bearer (Some (w +:+ String " " rest)) = head (JS.split " " rest).
Proof.
  intros Hw. unfold Auth.bearer, JS.truthy_str.
  assert (Hne : w +:+ String " " rest <> "") by (destruct w; discriminate).
  rewrite (bool_decide_eq_false_2 _ Hne).
  cbn [negb]. rewrite split_first_word by done.
  by destruct (JS.split " " rest).
Qed.

(** X26. The token is the second space-separated word of the
    [Authorization] header, whatever the first word (the scheme is not
    checked) and whatever follows; a header of a single word, an empty
    header and a missing header carry no token and are answered 401
    "No token provided", whatever [jwt.verify] would say. *)
Theorem bearer_is_second_word (jwt_verify : string -> Auth.verified)
    (userStore : UserStore.t) (scheme token rest : string) :
  no_space scheme -> no_space token ->
  Auth.bearer (Some (scheme +:+ " " +:+ token)) = Some token
  /\ Auth.bearer (Some (scheme +:+ " " +:+ token +:+ " " +:+ rest))
     = Some token
  /\ (forall authHeader,
        authHeader = None \/ authHeader = Some token ->
        Auth.authenticateToken jwt_verify userStore authHeader
        = Auth.Respond
            (Auth.mk_response 401 "Access denied" "No token provided")).
Proof.
  intros Hs Ht. split; [|split].
  - change (scheme +:+ " " +:+ token) with (scheme +:+ String " " token).
    rewrite bearer_after_first_word by done.
    by rewrite split_one_word.
  - change (scheme +:+ " " +:+ token +:+ " " +:+ rest)
      with (scheme +:+ String " " (token +:+ String " " rest)).
    rewrite bearer_after_first_word by done.
    by rewrite split_first_word.
  - intros authHeader [->| ->]; [done|].
    unfold Auth.authenticateToken, Auth.bearer, JS.truthy_str.
    destruct (decide (token = "")) as [->|Hne]; [done|].
    rewrite (bool_decide_eq_false_2 _ Hne). simpl.
    by rewrite split_one_word.
Qed.

End Bearer.

Lemma bearer_is_second_word_witness :
  Auth.bearer (Some ("Basic" +:+ " " +:+ "header.u-1.signature"))
  = Some "header.u-1.signature"
  /\ Auth.bearer
       (Some ("Basic" +:+ " " +:+ "header.u-1.signature" +:+ " " +:+ "x y"))
     = Some "header.u-1.signature"
  /\ (forall authHeader,
        authHeader = None \/ authHeader = Some "header.u-1.signature" ->
        Auth.authenticateToken one_token_verify john_store authHeader
        = Auth.Respond
            (Auth.mk_response 401 "Access denied" "No token provided")).
Proof.
  apply (bearer_is_second_word one_token_verify john_store
           "Basic" "header.u-1.signature" "x y").
  - simpl. repeat split; discriminate.
  - simpl. repeat split; discriminate.
Defined.

(** ** middleware/errorHandler.js and the event endpoints *)

Module ErrorHandler.

(** The properties of an error object that [errorHandler] reads; [None]
    is an absent property. [errors] holds the messages of a validation
    error, [keyField] the first key of [keyValue]. *)
Record err : Type := mk_err {
  message : string;
  status : option Z;
  name : string;
  code : option Z;
  isOperational : bool;
  errors : list string;
  keyField : string
}.

(** [new AppError(message, statusCode)] and a plain [new Error(message)]. *)
Definition AppError (message : string) (statusCode : Z) : err :=
  mk_err message (Some statusCode) "Error" None true [] "".

Definition plain (message : string) : err :=
  mk_err message None "Error" None false [] "".

(** The local [error] object, and the response sent (the [stack] added in
    development mode is left out). *)
Record shown : Type := mk_shown {
  s_message : string;
  s_details : option (list string);
  s_status : Z
}.

Record response : Type := mk_response {
  r_status : Z;
  r_error : string;
  r_details : option (list string)
}.

Definition errorHandler (e : err) : response :=
  let error :=
    mk_shown (if JS.truthy_str (message e) then message e
              else "Internal Server Error")
      None (JS.num_or (status e) 500) in
  let error :=
    if bool_decide (name e = "ValidationError") then
      mk_shown "Validation Error" (Some (errors e)) 400
    else error in
  let error :=
    if bool_decide (name e = "JsonWebTokenError") then
      mk_shown "Invalid token" None 401
    else error in
  let error :=
    if bool_decide (name e = "TokenExpiredError") then
      mk_shown "Token expired" None 401
    else error in
  let error :=
    if bool_decide (code e = Some 11000%Z) then
      mk_shown (keyField e +:+ " already exists") None 400
    else error in
  let error :=
    if bool_decide (name e = "CastError") then
      mk_shown "Invalid ID format" None 400
    else error in
  let error :=
    if isOperational e then
      mk_shown (message e) None (JS.num_or (status e) 400)
    else error in
  mk_response (s_status error) (s_message error) (s_details error).

End ErrorHandler.

(** A handler wrapped in [asyncHandler] either sends its answer or
    throws; what it throws reaches [errorHandler]. *)
Module Http.

Inductive reply (A : Type) : Type :=
| Sent (status : Z) (data : A)
| Raised (e : ErrorHandler.err).
Arguments Sent {A} status data.
Arguments Raised {A} e.

(** The status of the HTTP response, and its [error] text if any. *)
Definition answer {A} (r : reply A) : Z * option string :=
  match r with
  | Sent status _ => (status, None)
  | Raised e =>
      let res := ErrorHandler.errorHandler e in
      (ErrorHandler.r_status res, Some (ErrorHandler.r_error res))
  end.

End Http.

(** controllers/eventController.js: the four endpoints that change the
    event store. The emails sent on the side are left out. *)
Module EventController.
Import Http.

(** [s.includes(sub)] *)
Fixpoint includes (sub s : string) : bool :=
  String.prefix sub s
  || match s with
     | EmptyString => false
     | String _ s' => includes sub s'
     end.

Definition registerForEvent (now sentAt : Z) (id : string) (user : User.t)
    (s : EventStore.t)
    : EventStore.t * Http.reply (EventView.jsonWithUsers * Z) :=
  match EventStore.registerParticipant now id (User.id user) s with
  | (s', Return event) =>
      (s', Sent 200 (EventView.toJSONWithUsers event, sentAt))
  | (s', Throw error) =>
      (s', Raised
         (if bool_decide (message error = "Event not found") then
            ErrorHandler.AppError "Event not found" 404
          else if bool_decide (message error = "Event is full") then
            ErrorHandler.AppError "Event is full" 409
          else if bool_decide
                    (message error
                     = "User is already registered for this event") then
            ErrorHandler.AppError
              "You are already registered for this event" 409
          else ErrorHandler.plain (message error)))
  end.

Definition unregisterFromEvent (now : Z) (id : string) (user : User.t)
    (s : EventStore.t) : EventStore.t * Http.reply EventView.jsonWithUsers :=
  match EventStore.unregisterParticipant now id (User.id user) s with
  | (s', Return event) => (s', Sent 200 (EventView.toJSONWithUsers event))
  | (s', Throw error) =>
      (s', Raised
         (if bool_decide (message error = "Event not found") then
            ErrorHandler.AppError "Event not found" 404
          else if bool_decide
                    (message error
                     = "User is not registered for this event") then
            ErrorHandler.AppError "You are not registered for this event" 409
          else ErrorHandler.plain (message error)))
  end.

Definition updateEvent (now : Z) (id : string) (updateData : Event.patch)
    (user : User.t) (s : EventStore.t) : EventStore.t * Http.reply Event.json :=
  match EventStore.update now id updateData (User.id user) s with
  | (s', Return updatedEvent) => (s', Sent 200 (Event.toJSON updatedEvent))
  | (s', Throw error) =>
      (s', Raised
         (if bool_decide (message error = "Event not found") then
            ErrorHandler.AppError "Event not found" 404
          else if includes "Unauthorized" (message error) then
            ErrorHandler.AppError
              "Only the event organizer can update this event" 403
          else ErrorHandler.plain (message error)))
  end.

Definition deleteEvent (id : string) (user : User.t) (s : EventStore.t)
    : EventStore.t * Http.reply unit :=
  match EventStore.delete id (User.id user) s with
  | (s', Return _) => (s', Sent 200 tt)
  | (s', Throw error) =>
      (s', Raised
         (if bool_decide (message error = "Event not found") then
            ErrorHandler.AppError "Event not found" 404
          else if includes "Unauthorized" (message error) then
            ErrorHandler.AppError
              "Only the event organizer can delete this event" 403
          else ErrorHandler.plain (message error)))
  end.

End EventController.

Section Endpoints.

Implicit Types (e : Event.t) (s : EventStore.t) (user : User.t) (now : Z).

(** X27. The registration endpoint answers 404 when no event has the id,
    409 "Event is full" when the event found is at capacity, 409 "You are
    already registered for this event" when it has room and the caller is
    a participant, all three with the store untouched; otherwise it
    answers 200 and the caller is the event's last participant. It never
    answers 500. *)
Theorem registerForEvent_answers s now sentAt id user :
  let res := EventController.registerForEvent now sentAt id user s in
  match EventStore.findById id s with
  | None =>
      res.1 = s
      /\ Http.answer res.2 = (404%Z, Some "Event not found")
  | Some e =>
      if Event.at_capacity e then
        res.1 = s
        /\ Http.answer res.2 = (409%Z, Some "Event is full")
      else if bool_decide (User.id user ∈ Event.participants e) then
        res.1 = s
        /\ Http.answer res.2
           = (409%Z, Some "You are already registered for this event")
      else
        Http.answer res.2 = (200%Z, None)
        /\ exists e',
             EventStore.findById id res.1 = Some e'
             /\ Event.participants e' = Event.participants e ++ [User.id user]
  end.
Proof.
  intros res. unfold res, EventController.registerForEvent.
  destruct (EventStore.find_slot id s) as [[i e]|] eqn:Hslot.
  - unfold EventStore.findById. rewrite Hslot. simpl.
    rewrite (registerParticipant_run s id i e now (User.id user) Hslot).
    destruct (addParticipant_cases e now (User.id user))
      as [[Hc H]|[(Hc & Hin & H)|(Hc & Hnin & H)]]; rewrite H, Hc.
    + done.
    + by rewrite bool_decide_eq_true_2.
    + rewrite bool_decide_eq_false_2 by done. simpl. split; [done|].
      eexists. split.
      * unfold EventStore.findById, EventStore.find_slot in *. simpl.
        rewrite (list_find_insert_same _ _ i e _ Hslot); [done|].
        simpl. by apply list_find_Some in Hslot as (_ & ? & _).
      * done.
  - rewrite (find_slot_None_throw s id Hslot).
    destruct (missing_event_throws s id now (User.id user) Event.no_patch
                Hslot) as (_ & _ & -> & _).
    done.
Qed.

(** X28. The unregistration endpoint answers 404 when no event has the
    id and 409 "You are not registered for this event" when the caller is
    not a participant of the event found, both with the store untouched;
    otherwise it answers 200. It never answers 500. *)
Theorem unregisterFromEvent_answers s now id user :
  let res := EventController.unregisterFromEvent now id user s in
  match EventStore.findById id s with
  | None =>
      res.1 = s
      /\ Http.answer res.2 = (404%Z, Some "Event not found")
  | Some e =>
      if bool_decide (User.id user ∈ Event.participants e) then
        Http.answer res.2 = (200%Z, None)
        /\ exists e',
             EventStore.findById id res.1 = Some e'
             /\ S (length (Event.participants e'))
                = length (Event.participants e)
      else
        res.1 = s
        /\ Http.answer res.2
           = (409%Z, Some "You are not registered for this event")
  end.
Proof.
  intros res. unfold res, EventController.unregisterFromEvent.
  destruct (EventStore.find_slot id s) as [[i e]|] eqn:Hslot.
  - unfold EventStore.findById. rewrite Hslot. simpl.
    rewrite (unregisterParticipant_run s id i e now (User.id user) Hslot).
    destruct (removeParticipant_cases e now (User.id user))
      as [[Hnin H]|(j & Hj & H)]; rewrite H.
    + by rewrite bool_decide_eq_false_2.
    + rewrite bool_decide_eq_true_2 by (by eapply list_elem_of_lookup_2).
      simpl. split; [done|]. eexists. split.
      * unfold EventStore.findById, EventStore.find_slot in *. simpl.
        rewrite (list_find_insert_same _ _ i e _ Hslot); [done|].
        simpl. by apply list_find_Some in Hslot as (_ & ? & _).
      * simpl. rewrite length_delete by (by exists (User.id user)).
        apply lookup_lt_Some in Hj. lia.
  - rewrite (find_slot_None_throw s id Hslot).
    destruct (missing_event_throws s id now (User.id user) Event.no_patch
                Hslot) as (_ & _ & _ & ->).
    done.
Qed.

(** X29. The update and delete endpoints answer 404 when no event has
    the id and 403 when the caller is not the organizer of the event
    found, both with the store untouched; for the organizer they answer
    200. They never answer 500. *)
Theorem updateEvent_deleteEvent_answers s now id (p : Event.patch) user :
  let upd := EventController.updateEvent now id p user s in
  let del := EventController.deleteEvent id user s in
  match EventStore.findById id s with
  | None =>
      upd.1 = s /\ del.1 = s
      /\ Http.answer upd.2 = (404%Z, Some "Event not found")
      /\ Http.answer del.2 = (404%Z, Some "Event not found")
  | Some e =>
      if bool_decide (User.id user = Event.organizerId e) then
        Http.answer upd.2 = (200%Z, None)
        /\ Http.answer del.2 = (200%Z, None)
      else
        upd.1 = s /\ del.1 = s
        /\ Http.answer upd.2
           = (403%Z, Some "Only the event organizer can update this event")
        /\ Http.answer del.2
           = (403%Z, Some "Only the event organizer can delete this event")
  end.
Proof.
  intros upd del.
  unfold upd, del, EventController.updateEvent, EventController.deleteEvent.
  destruct (EventStore.find_slot id s) as [[i e]|] eqn:Hslot.
  - unfold EventStore.findById. rewrite Hslot. simpl.
    case_bool_decide as Horg.
    + rewrite Horg.
      rewrite (update_by_organizer_run s id i e now p Hslot).
      by rewrite (delete_by_organizer_run s id i e Hslot).
    + rewrite (update_by_stranger s id i e now p (User.id user) Hslot Horg).
      by rewrite (delete_by_stranger s id i e (User.id user) Hslot Horg).
  - rewrite (find_slot_None_throw s id Hslot).
    destruct (missing_event_throws s id now (User.id user) p Hslot)
      as (-> & -> & _ & _).
    done.
Qed.

End Endpoints.

(** controllers/authController.js: [deactivateAccount], for the user
    [authenticateToken] put in [req.user]. *)
Module AuthController.

Definition deactivate (now : Z) : M User.t unit :=
  modify (User.set_isActive false);;
  modify (User.set_updatedAt (JS.DateObj now)).

Definition deactivateAccount (now : Z) (user : User.t) (s : UserStore.t)
    : UserStore.t * Http.reply unit :=
  match UserStore.find_slot (User.id user) s with
  | None => (s, Http.Raised (ErrorHandler.AppError "User not found" 404))
  | Some (i, _) =>
      let s' :=
        fst ((at_index UserStore.users UserStore.set_users i (deactivate now);;
              UserStore.saveToFile) s) in
      (s', Http.Sent 200 tt)
  end.

End AuthController.

Section Deactivation.

Implicit Types (s : UserStore.t) (authHeader : option string).

Lemma authenticate_next_inv (jwt_verify : string -> Auth.verified)
    s authHeader user :
  Auth.authenticateToken jwt_verify s authHeader = Auth.Next user ->
  exists token p,
    Auth.bearer authHeader = Some token /\ token <> ""
    /\ jwt_verify token = Auth.Decoded p
    /\ UserStore.findById (Auth.userId p) s = Some user
    /\ User.isActive user = true.
Proof.
  unfold Auth.authenticateToken, Auth.no_token, JS.truthy_str.
  destruct (Auth.bearer authHeader) as [token|]; simpl; [|done].
  destruct (decide (token = "")) as [->|Hne]; [done|].
  rewrite (bool_decide_eq_false_2 _ Hne). simpl.
  destruct (jwt_verify token) as [p| | |name] eqn:Hv; try done.
  destruct (UserStore.findById (Auth.userId p) s) as [u|] eqn:Hf; [|done].
  destruct (User.isActive u) eqn:Ha; simpl; [|done].
  intros [= <-]. by exists token, p.
Qed.

Lemma restart_users_findById s (id : string) :
  UserStore.findById id (restart_users s)
  = (fun u => User.rehydrate (User.toJSON u)) <$> UserStore.findById id s.
Proof.
  unfold UserStore.findById, UserStore.find_slot.
  rewrite restart_users_eq, list_find_fmap.
  by destruct (list_find _ (UserStore.users s)) as [[??]|].
Qed.


End Deactivation.

